(** * Network settling: a shallow embedding of [network_settling.py]

    The engine of [network_settling.py] keeps, for every cell of a square
    grid, a list of binary64 probabilities and updates all of them in
    rounds.  The embedding below follows the Python source method by
    method:

    - Python [float] is Rocq's primitive binary64 [float], so that every
      arithmetic operation and comparison rounds as the interpreter does;
    - Python [int] is [Z];
    - the dictionary [self.probabilities] is a [gmap (Z * Z) (list float)]
      and the set [self.clamped] is a [gset (Z * Z)];
    - a Python exception is the [Raise] branch of the result type [res]. *)

From Stdlib Require Import ZArith Floats Lia Ascii.
From stdpp Require Import gmap list strings pretty.

Local Open Scope Z_scope.

(** ** Exceptions and results *)

Inductive exn : Set :=
  | KeyError
  | IndexError
  | ValueError
  | ZeroDivisionError
  | OverflowError.

Inductive res (A : Type) : Type :=
  | Ok (a : A)
  | Raise (e : exn).
Arguments Ok {A} a.
Arguments Raise {A} e.

(** Sequencing: the first exception raised ends the computation. *)
Definition bind {A B : Type} (m : res A) (f : A -> res B) : res B :=
  match m with
  | Ok a => f a
  | Raise e => Raise e
  end.

Notation "'let*' x := m 'in' k" := (bind m (fun x => k))
  (at level 10, x name, m at level 100, k at level 200).
Notation "'let*' ' p := m 'in' k" := (bind m (fun x => match x with p => k end))
  (at level 10, p pattern, m at level 100, k at level 200).

(** A [for] loop that threads an accumulator and stops at the first
    exception. *)
Fixpoint foldM {A B : Type} (f : A -> B -> res A) (a : A) (l : list B) : res A :=
  match l with
  | [] => Ok a
  | x :: l' => let* a' := f a x in foldM f a' l'
  end.

(** ** Python primitives *)

Module Py.

(** [range(n)]: empty when [n <= 0]. *)
Definition range (n : Z) : list Z := Z.of_nat <$> seq 0 (Z.to_nat n).

(** The bound on the index of a sequence and on a repetition count:
    [sys.maxsize + 1] of a 64-bit interpreter. *)
Definition index_limit : Z := 2 ^ 63.

(** [[x] * n]: empty when [n <= 0]; a count that does not fit an index is an
    [OverflowError]. *)
Definition repeat {A : Type} (x : A) (n : Z) : res (list A) :=
  if bool_decide (- index_limit <= n < index_limit) then Ok (replicate (Z.to_nat n) x)
  else Raise OverflowError.

(** The position a subscript [l[i]] denotes: negative subscripts count from
    the end of the list, anything outside [-len, len) is an [IndexError]. *)
Definition position {A : Type} (l : list A) (i : Z) : res nat :=
  let len := Z.of_nat (length l) in
  if bool_decide (0 <= i < len) then Ok (Z.to_nat i)
  else if bool_decide (- len <= i < 0) then Ok (Z.to_nat (len + i))
  else Raise IndexError.

(** [l[i]] *)
Definition getitem {A : Type} (l : list A) (i : Z) : res A :=
  let* k := position l i in
  match l !! k with
  | Some x => Ok x
  | None => Raise IndexError
  end.

(** [l[i] = x] *)
Definition setitem {A : Type} (l : list A) (i : Z) (x : A) : res (list A) :=
  let* k := position l i in Ok (<[k := x]> l).

(** [d[k]] on a dictionary *)
Definition subscript {K : Type} `{Countable K} {V : Type} (d : gmap K V) (k : K) : res V :=
  match d !! k with
  | Some v => Ok v
  | None => Raise KeyError
  end.

(** Conversion of an [int] to a [float], as every mixed [float]/[int]
    operation does first: correctly rounded (to nearest, ties to even), and
    an [OverflowError] when the integer rounds beyond the largest finite
    binary64 number, that is from [2^1024 - 2^970] on. *)
Definition float_int_limit : Z := 2 ^ 1024 - 2 ^ 970.

Definition float_of_int (z : Z) : res float :=
  if bool_decide (Z.abs z < float_int_limit)
  then Ok (SF2Prim (binary_normalize prec emax z 0 false))
  else Raise OverflowError.

(** [x / n] for a float [x] and an int [n] *)
Definition truediv_int (x : float) (n : Z) : res float :=
  let* d := float_of_int n in
  if bool_decide (n = 0) then Raise ZeroDivisionError else Ok (x / d)%float.

(** The builtin [max(a, b)]: the first argument unless the second is
    strictly greater. *)
Definition max2 (a b : float) : float := if (a <? b)%float then b else a.

(** The builtin [min(a, b)]: the first argument unless the second is
    strictly smaller. *)
Definition min2 (a b : float) : float := if (b <? a)%float then b else a.

(** The builtin [max] over a sequence, with the position of the element it
    returns: the scan keeps its candidate unless the next item is strictly
    greater; an empty sequence is a [ValueError]. *)
Fixpoint max_scan (best : float) (pos : nat) (i : nat) (l : list float) : float * nat :=
  match l with
  | [] => (best, pos)
  | y :: l' =>
      if (best <? y)%float then max_scan y i (S i) l' else max_scan best pos (S i) l'
  end.

Definition max_of (l : list float) : res (float * nat) :=
  match l with
  | [] => Raise ValueError
  | x :: l' => Ok (max_scan x 0%nat 1%nat l')
  end.

(** [l.index(x)] where [x] is the object stored at position [pos] of [l]:
    the first position whose item is that object or compares equal to it. *)
Fixpoint index_from (x : float) (pos : nat) (i : nat) (l : list float) : res nat :=
  match l with
  | [] => Raise ValueError
  | y :: l' =>
      if bool_decide (i = pos) || (y =? x)%float then Ok i
      else index_from x pos (S i) l'
  end.

(** The builtin [sum] over floats: additions from the left, starting at the
    integer [0], which the first addition converts to [0.0].  (Interpreters
    from 3.12 on compensate the rounding of these additions; the results
    agree whenever the additions are exact.) *)
Definition sum (l : list float) : float := foldl PrimFloat.add 0%float l.

End Py.

(** ** The engine state *)

Abbreviation cell := (Z * Z)%type.

Record NetworkSettling : Type := mkNetwork {
  grid_size : Z;
  probabilities : gmap cell (list float);
  clamped : gset cell;
  iteration : Z;
  convergence_threshold : float;
  inhibition_strength : float;
  is_converged : bool
}.

#[warnings="-inexact-float"]
Definition default_threshold : float := 0.001%float.

Definition default_inhibition : float := 0.5%float.

#[warnings="-inexact-float"]
Definition confidence : float := 0.9%float.

(** The two nested [for] loops of [initialize]: every cell of the grid gets
    the list [[uniform_prob] * grid_size], built anew for each of them. *)
Definition fill_uniform (n : Z) (u : float) (d : gmap cell (list float)) :
    res (gmap cell (list float)) :=
  foldM (fun d row =>
           foldM (fun d col => let* probs := Py.repeat u n in Ok (<[(row, col) := probs]> d))
                 d (Py.range n))
        d (Py.range n).

Definition initialize (s : NetworkSettling) : res NetworkSettling :=
  let* uniform_prob := Py.truediv_int 1%float (grid_size s) in
  let* probabilities' := fill_uniform (grid_size s) uniform_prob (probabilities s) in
  Ok {| grid_size := grid_size s;
        probabilities := probabilities';
        clamped := clamped s;
        iteration := 0;
        convergence_threshold := convergence_threshold s;
        inhibition_strength := inhibition_strength s;
        is_converged := false |}.

(** The fields as [__init__] assigns them, before it calls [initialize]. *)
Definition blank (n : Z) : NetworkSettling :=
  {| grid_size := n;
     probabilities := ∅;
     clamped := ∅;
     iteration := 0;
     convergence_threshold := default_threshold;
     inhibition_strength := default_inhibition;
     is_converged := false |}.

(** [NetworkSettling(grid_size)] *)
Definition new (n : Z) : res NetworkSettling := initialize (blank n).

Definition set_clue (s : NetworkSettling) (row col value : Z) : res NetworkSettling :=
  let* zeros := Py.repeat 0%float (grid_size s) in
  let* probs := Py.setitem zeros (value - 1) 1%float in
  Ok {| grid_size := grid_size s;
        probabilities := <[(row, col) := probs]> (probabilities s);
        clamped := {[(row, col)]} ∪ clamped s;
        iteration := iteration s;
        convergence_threshold := convergence_threshold s;
        inhibition_strength := inhibition_strength s;
        is_converged := is_converged s |}.

Definition remove_clue (s : NetworkSettling) (row col : Z) : res NetworkSettling :=
  let clamped' := clamped s ∖ {[(row, col)]} in
  let* uniform_prob := Py.truediv_int 1%float (grid_size s) in
  let* probs := Py.repeat uniform_prob (grid_size s) in
  Ok {| grid_size := grid_size s;
        probabilities := <[(row, col) := probs]> (probabilities s);
        clamped := clamped';
        iteration := iteration s;
        convergence_threshold := convergence_threshold s;
        inhibition_strength := inhibition_strength s;
        is_converged := is_converged s |}.

Definition is_clamped (s : NetworkSettling) (row col : Z) : bool :=
  bool_decide ((row, col) ∈ clamped s).

(** [get_most_likely_value]: the pair of the dictionary's ['value'] and
    ['probability'] entries. *)
Definition get_most_likely_value (s : NetworkSettling) (row col : Z) : res (Z * float) :=
  let* probs := Py.subscript (probabilities s) (row, col) in
  let* '(max_prob, pos) := Py.max_of probs in
  let* max_index := Py.index_from max_prob pos 0%nat probs in
  Ok (Z.of_nat max_index + 1, max_prob).

Definition get_probabilities (s : NetworkSettling) (row col : Z) : res (list float) :=
  Py.subscript (probabilities s) (row, col).

(** ** The update rule *)

(** One scanning loop of [is_value_impossible].  The loop visits the cell
    [at_ k] for every index [k] of the line except [self], and returns as
    soon as a clamped cell reports [value] as its most likely value. *)
Fixpoint clamped_elsewhere (s : NetworkSettling) (at_ : Z -> cell) (self value : Z)
    (l : list Z) : res bool :=
  match l with
  | [] => Ok false
  | k :: l' =>
      if bool_decide (k = self) then clamped_elsewhere s at_ self value l'
      else if bool_decide (at_ k ∈ clamped s) then
        let* '(clamped_value, _) := get_most_likely_value s (at_ k).1 (at_ k).2 in
        if bool_decide (clamped_value = value) then Ok true
        else clamped_elsewhere s at_ self value l'
      else clamped_elsewhere s at_ self value l'
  end.

Definition is_value_impossible (s : NetworkSettling) (row col value_idx : Z) : res bool :=
  let value := value_idx + 1 in
  let* in_row := clamped_elsewhere s (fun c => (row, c)) col value (Py.range (grid_size s)) in
  if in_row then Ok true
  else clamped_elsewhere s (fun r => (r, col)) row value (Py.range (grid_size s)).

(** One accumulating loop of [calculate_inhibition], on the pair
    [(total_inhibition, count)]. *)
Definition inhibition_loop (s : NetworkSettling) (at_ : Z -> cell) (self value_idx : Z)
    (acc : float * Z) (l : list Z) : res (float * Z) :=
  foldM (fun '(total_inhibition, count) k =>
           if bool_decide (k = self) then Ok (total_inhibition, count)
           else if bool_decide (at_ k ∉ clamped s) then
             let* probs := Py.subscript (probabilities s) (at_ k) in
             let* prob := Py.getitem probs value_idx in
             Ok ((total_inhibition + prob)%float, count + 1)
           else Ok (total_inhibition, count))
        acc l.

Definition calculate_inhibition (s : NetworkSettling) (row col value_idx : Z) : res float :=
  let* acc := inhibition_loop s (fun c => (row, c)) col value_idx (0%float, 0) (Py.range (grid_size s)) in
  let* '(total_inhibition, count) :=
    inhibition_loop s (fun r => (r, col)) row value_idx acc (Py.range (grid_size s)) in
  if bool_decide (count > 0) then Py.truediv_int total_inhibition count else Ok 0%float.

Definition normalize (s : NetworkSettling) (probs : list float) : res (list float) :=
  let total := Py.sum probs in
  if (total =? 0)%float then
    let* uniform_prob := Py.truediv_int 1%float (grid_size s) in
    Py.repeat uniform_prob (grid_size s)
  else Ok ((fun p => (p / total)%float) <$> probs).

Definition calculate_change (old_probs new_probs : list float) : res float :=
  let* '(change, _) := Py.max_of (zip_with (fun old new => abs (new - old)%float) old_probs new_probs) in
  Ok change.

(** The body of the [for value_idx] loop of [calculate_new_probabilities]. *)
Definition update_value (s : NetworkSettling) (row col : Z) (current_probs : list float)
    (new_probs : list float) (value_idx : Z) : res (list float) :=
  let* impossible := is_value_impossible s row col value_idx in
  if impossible then Py.setitem new_probs value_idx 0%float
  else
    let* inhibition := calculate_inhibition s row col value_idx in
    let* current := Py.getitem current_probs value_idx in
    let* new_probs := Py.setitem new_probs value_idx
                  (current * (1 - inhibition * inhibition_strength s))%float in
    let* stored := Py.getitem new_probs value_idx in
    Py.setitem new_probs value_idx (Py.max2 0%float stored).

(** [calculate_new_probabilities] up to its last line: the list [new_probs]
    as it stands when the loop over the values ends. *)
Definition unnormalized (s : NetworkSettling) (row col : Z) : res (list float) :=
  let* current_probs := Py.subscript (probabilities s) (row, col) in
  foldM (update_value s row col current_probs) current_probs (Py.range (grid_size s)).

Definition calculate_new_probabilities (s : NetworkSettling) (row col : Z) : res (list float) :=
  let* new_probs := unnormalized s row col in
  normalize s new_probs.

(** ** One round *)

(** The body of the two nested loops of [step], on the pair
    [(new_probabilities, max_change)]. *)
Definition step_cell (s : NetworkSettling) (acc : gmap cell (list float) * float)
    (rc : cell) : res (gmap cell (list float) * float) :=
  let '(new_probabilities, max_change) := acc in
  if bool_decide (rc ∈ clamped s) then
    let* probs := Py.subscript (probabilities s) rc in
    Ok (<[rc := probs]> new_probabilities, max_change)
  else
    let* new_probs := calculate_new_probabilities s rc.1 rc.2 in
    let* old_probs := Py.subscript (probabilities s) rc in
    let* change := calculate_change old_probs new_probs in
    Ok (<[rc := new_probs]> new_probabilities, Py.max2 max_change change).

Definition step_loop (s : NetworkSettling) : res (gmap cell (list float) * float) :=
  foldM (fun acc row =>
           foldM (fun acc col => step_cell s acc (row, col)) acc (Py.range (grid_size s)))
        (∅, 0%float) (Py.range (grid_size s)).

(** [step]: the returned maximum change and the state it leaves. *)
Definition step (s : NetworkSettling) : res (float * NetworkSettling) :=
  if is_converged s then Ok (0%float, s)
  else
    let* '(new_probabilities, max_change) := step_loop s in
    Ok (max_change,
        {| grid_size := grid_size s;
           probabilities := new_probabilities;
           clamped := clamped s;
           iteration := iteration s + 1;
           convergence_threshold := convergence_threshold s;
           inhibition_strength := inhibition_strength s;
           is_converged :=
             if (max_change <? convergence_threshold s)%float then true
             else is_converged s |}).

Definition reset (s : NetworkSettling) : res NetworkSettling :=
  initialize {| grid_size := grid_size s;
                probabilities := probabilities s;
                clamped := ∅;
                iteration := iteration s;
                convergence_threshold := convergence_threshold s;
                inhibition_strength := inhibition_strength s;
                is_converged := is_converged s |}.

Definition set_inhibition_strength (s : NetworkSettling) (strength : float) : NetworkSettling :=
  {| grid_size := grid_size s;
     probabilities := probabilities s;
     clamped := clamped s;
     iteration := iteration s;
     convergence_threshold := convergence_threshold s;
     inhibition_strength := Py.max2 0%float (Py.min2 1%float strength);
     is_converged := is_converged s |}.

(** ** Validity of the current grid *)

(** The inner loop of either pass of [is_valid_solution] over the cells of
    one line, with the set [values] seen so far.  [Ok false] is the early
    [return False]; [Ok true] means the loop ran to its end.  Only the row
    pass compares the probability with 0.9 ([confident = true]). *)
Fixpoint line_distinct (s : NetworkSettling) (confident : bool) (values : gset Z)
    (cells : list cell) : res bool :=
  match cells with
  | [] => Ok true
  | rc :: cells' =>
      let* '(value, probability) := get_most_likely_value s rc.1 rc.2 in
      if confident && (probability <? confidence)%float then Ok false
      else if bool_decide (value ∈ values) then Ok false
      else line_distinct s confident ({[value]} ∪ values) cells'
  end.

(** The outer loop of a pass: one inner loop per line, left as soon as one
    of them returns. *)
Fixpoint all_lines (line : Z -> res bool) (l : list Z) : res bool :=
  match l with
  | [] => Ok true
  | k :: l' => let* ok := line k in if ok then all_lines line l' else Ok false
  end.

Definition row_cells (s : NetworkSettling) (row : Z) : list cell :=
  (fun col => (row, col)) <$> Py.range (grid_size s).

Definition col_cells (s : NetworkSettling) (col : Z) : list cell :=
  (fun row => (row, col)) <$> Py.range (grid_size s).

Definition is_valid_solution (s : NetworkSettling) : res bool :=
  let* rows := all_lines (fun row => line_distinct s true ∅ (row_cells s row)) (Py.range (grid_size s)) in
  if rows
  then all_lines (fun col => line_distinct s false ∅ (col_cells s col)) (Py.range (grid_size s))
  else Ok false.

(** ** Snapshots for the host *)

(** [for x in l], collecting the results of a raising function. *)
Fixpoint mapM {A B : Type} (f : A -> res B) (l : list A) : res (list B) :=
  match l with
  | [] => Ok []
  | x :: l' => let* y := f x in let* ys := mapM f l' in Ok (y :: ys)
  end.

Definition get_grid (s : NetworkSettling) : res (list (list Z)) :=
  mapM (fun row =>
          mapM (fun col => let* '(value, _) := get_most_likely_value s row col in Ok value)
               (Py.range (grid_size s)))
       (Py.range (grid_size s)).

(** The values [json.dumps] receives.  The adapters hand the host the text
    of such a value; the embedding stops at the value itself. *)
#[warnings="-register-all"]
Inductive json : Type :=
  | JBool (b : bool)
  | JInt (z : Z)
  | JFloat (x : float)
  | JStr (t : string)
  | JList (items : list json)
  | JObj (fields : list (string * json)).

(** [get_state]: the summary dictionary. *)
Definition get_state (s : NetworkSettling) : json :=
  JObj [("iteration", JInt (iteration s));
        ("is_converged", JBool (is_converged s));
        ("grid_size", JInt (grid_size s));
        ("clamped_count", JInt (Z.of_nat (size (clamped s))))].

(** The key [f"{row},{col}"] of a cell in the snapshot. *)
Definition cell_key (rc : cell) : string := pretty rc.1 +:+ "," +:+ pretty rc.2.

(** [to_json], before the text is produced.  A Python dictionary lists its
    items in insertion order and a Python set in an order of its own; here
    both come in the order of [map_to_list] and [elements]. *)
Definition to_json (s : NetworkSettling) : res json :=
  let* grid := get_grid s in
  Ok (JObj [("grid_size", JInt (grid_size s));
            ("iteration", JInt (iteration s));
            ("is_converged", JBool (is_converged s));
            ("probabilities",
              JObj ((fun kv => (cell_key kv.1, JList (JFloat <$> kv.2)))
                      <$> map_to_list (probabilities s)));
            ("clamped",
              JList ((fun rc => JList [JInt rc.1; JInt rc.2]) <$> elements (clamped s)));
            ("grid", JList ((fun row => JList (JInt <$> row)) <$> grid))]).

(** ** The host-call adapters

    The module-level functions share the global [_network], which is [None]
    until [create_network] runs.  Each adapter is a function of the global's
    current content and returns its result together with the global's new
    content. *)

Module Api.

Definition global := option NetworkSettling.

Definition not_initialized : json := JObj [("error", JStr "Network not initialized")].


Definition set_clue (_network : global) (row col value : Z) : res (json * global) :=
  match _network with
  | None => Ok (not_initialized, None)
  | Some s =>
      let* s' := set_clue s row col value in
      let* out := to_json s' in
      Ok (out, Some s')
  end.

Definition remove_clue (_network : global) (row col : Z) : res (json * global) :=
  match _network with
  | None => Ok (not_initialized, None)
  | Some s =>
      let* s' := remove_clue s row col in
      let* out := to_json s' in
      Ok (out, Some s')
  end.

Definition step (_network : global) : res (json * global) :=
  match _network with
  | None => Ok (not_initialized, None)
  | Some s =>
      let* '(max_change, s') := step s in
      let* out := to_json s' in
      match out with
      | JObj fields => Ok (JObj (fields ++ [("max_change", JFloat max_change)]), Some s')
      | _ => Ok (out, Some s')
      end
  end.

Definition reset (_network : global) : res (json * global) :=
  match _network with
  | None => Ok (not_initialized, None)
  | Some s =>
      let* s' := reset s in
      let* out := to_json s' in
      Ok (out, Some s')
  end.

Definition set_inhibition (_network : global) (strength : float) : res (json * global) :=
  match _network with
  | None => Ok (not_initialized, None)
  | Some s =>
      let s' := set_inhibition_strength s strength in
      let* out := to_json s' in
      Ok (out, Some s')
  end.

Definition get_state (_network : global) : res (json * global) :=
  match _network with
  | None => Ok (not_initialized, None)
  | Some s => let* out := to_json s in Ok (out, Some s)
  end.

End Api.

(** ** Drivers: sequences of calls *)

Inductive op : Type :=
  | OpInitialize
  | OpReset
  | OpSetClue (row col value : Z)
  | OpRemoveClue (row col : Z)
  | OpSetInhibition (strength : float)
  | OpStep.

Definition exec (s : NetworkSettling) (o : op) : res NetworkSettling :=
  match o with
  | OpInitialize => initialize s
  | OpReset => reset s
  | OpSetClue row col value => set_clue s row col value
  | OpRemoveClue row col => remove_clue s row col
  | OpSetInhibition strength => Ok (set_inhibition_strength s strength)
  | OpStep => let* '(_, s') := step s in Ok s'
  end.

(** The calls of [ops], one after the other. *)
Definition run (s : NetworkSettling) (ops : list op) : res NetworkSettling := foldM exec s ops.

(** ** Well-formed engines *)

Definition in_grid (s : NetworkSettling) (rc : cell) : Prop :=
  (0 <= rc.1 < grid_size s) /\ (0 <= rc.2 < grid_size s).

(** What the constructor establishes and every method keeps: a size whose
    reciprocal can be taken and that a list can be repeated, and a list of
    [grid_size] entries for every cell of the grid. *)
Record wf (s : NetworkSettling) : Prop := {
  wf_nonzero : grid_size s <> 0;
  wf_index : - Py.index_limit <= grid_size s < Py.index_limit;
  wf_cells : forall rc, in_grid s rc ->
    exists probs, probabilities s !! rc = Some probs /\ length probs = Z.to_nat (grid_size s)
}.

(** The uniform list of the engine. *)
Definition uniform (s : NetworkSettling) : res (list float) :=
  let* uniform_prob := Py.truediv_int 1%float (grid_size s) in
  Py.repeat uniform_prob (grid_size s).

(** ** Definitions used by the statements *)

(** The list of [n] copies of [x]: what [[x] * n] is when it does not
    raise. *)
Definition copies {A : Type} (x : A) (n : Z) : list A := replicate (Z.to_nat n) x.

(** The dictionary the loops of [initialize] leave when they do not raise. *)
Definition filled (n : Z) (u : float) (d : gmap cell (list float)) : gmap cell (list float) :=
  foldl (fun d row => foldl (fun d col => <[(row, col) := copies u n]> d) d (Py.range n))
        d (Py.range n).

(** The cells of the grid in the order the nested [for row]/[for col] loops
    visit them. *)
Definition grid_cells (n : Z) : list cell :=
  row ← Py.range n; (fun col => (row, col)) <$> Py.range n.

(** The distribution [step] stores for a cell. *)
Definition next_probs (s : NetworkSettling) (rc : cell) : res (list float) :=
  if bool_decide (rc ∈ clamped s) then Py.subscript (probabilities s) rc
  else calculate_new_probabilities s rc.1 rc.2.

(** The list [set_clue] builds for the slot at position [k]. *)
Definition one_hot (n : Z) (k : nat) : list float := <[k := 1%float]> (copies 0%float n).

(** The engine a sequence of calls ends in; [blank 0] if one of them
    raises. *)
Definition state_of (r : res NetworkSettling) : NetworkSettling :=
  match r with
  | Ok s => s
  | Raise _ => blank 0
  end.

(** An executable check of [wf]. *)
Definition wf_check (s : NetworkSettling) : bool :=
  bool_decide (grid_size s <> 0)
  && bool_decide (- Py.index_limit <= grid_size s < Py.index_limit)
  && forallb (fun rc => match probabilities s !! rc with
                        | Some probs => bool_decide (length probs = Z.to_nat (grid_size s))
                        | None => false
                        end)
             (grid_cells (grid_size s)).

#[global] Instance in_grid_dec (s : NetworkSettling) (rc : cell) : Decision (in_grid s rc).
Proof. unfold in_grid. apply _. Defined.

(** The calls that clear the convergence flag. *)
Definition clears_flag (o : op) : bool :=
  match o with
  | OpInitialize | OpReset => true
  | _ => false
  end.

(** The calls that leave the clue in cell [rc] alone: all but [initialize],
    [reset], and [set_clue] or [remove_clue] on [rc] itself. *)
Definition spares (rc : cell) (o : op) : bool :=
  match o with
  | OpInitialize | OpReset => false
  | OpSetClue row col _ | OpRemoveClue row col => negb (bool_decide ((row, col) = rc))
  | OpSetInhibition _ | OpStep => true
  end.

(** The engine of the 4x4 scenario, before its round. *)
Definition scenario_4x4 : NetworkSettling :=
  state_of (let* s := new 4 in run s [OpSetClue 0 0 1; OpSetClue 0 1 2]).

(** A fresh 2x2 engine after one round: it has converged. *)
Definition settled_2x2 : NetworkSettling :=
  state_of (let* s := new 2 in run s [OpStep]).

(** A 2x2 engine with the clue 1 in its top left cell. *)
Definition clued_2x2 : NetworkSettling :=
  state_of (let* s := new 2 in run s [OpSetClue 0 0 1]).

(** A 2x2 engine with the clue 1 in its top left cell, after one round. *)
Definition stepped_2x2 : NetworkSettling :=
  state_of (let* s := new 2 in run s [OpSetClue 0 0 1; OpStep]).

(** A fresh 2x2 engine whose inhibition strength has been set to 1.0. *)
Definition strong_2x2 : NetworkSettling :=
  state_of (let* s := new 2 in run s [OpSetInhibition 1%float]).

(** Cell [rc] is a clue with value [value]: it is clamped and [value] is
    what [get_most_likely_value] reports for it, which is how
    [is_value_impossible] reads the value of a clamped cell. *)
Definition clamped_to (s : NetworkSettling) (rc : cell) (value : Z) : Prop :=
  rc ∈ clamped s /\ exists p, get_most_likely_value s rc.1 rc.2 = Ok (value, p).

(** A 2x2 engine with the clues 1 at (0,0) and 2 at (1,1): no value is left
    for the cell (0,1). *)
Definition boxed_2x2 : NetworkSettling :=
  state_of (let* s := new 2 in run s [OpSetClue 0 0 1; OpSetClue 1 1 2]).

(** The rank of a number in the order of [SFcompare]: the class of the
    number first, then exponent and mantissa, negated below zero. *)
Definition rank (x : spec_float) : Z * Z * Z :=
  match x with
  | S754_nan => (0, 0, 0)
  | S754_zero _ => (0, 0, 0)
  | S754_infinity true => (-2, 0, 0)
  | S754_infinity false => (2, 0, 0)
  | S754_finite true m e => (-1, - e, - Z.pos m)
  | S754_finite false m e => (1, e, Z.pos m)
  end.

(** The lexicographic order on ranks. *)
Definition rank_lt (a b : Z * Z * Z) : Prop :=
  a.1.1 < b.1.1
  \/ (a.1.1 = b.1.1 /\ (a.1.2 < b.1.2 \/ (a.1.2 = b.1.2 /\ a.2 < b.2))).


(** The most likely value of a cell and its probability. *)
Definition most_likely_value (s : NetworkSettling) (rc : cell) : Z :=
  match get_most_likely_value s rc.1 rc.2 with
  | Ok (value, _) => value
  | Raise _ => 0
  end.

Definition most_likely_probability (s : NetworkSettling) (rc : cell) : float :=
  match get_most_likely_value s rc.1 rc.2 with
  | Ok (_, probability) => probability
  | Raise _ => nan
  end.

(** What the two passes of [is_valid_solution] establish, list by list, when
    none of them returns early. *)
Definition lines_valid (s : NetworkSettling) : Prop :=
  (forall row, 0 <= row < grid_size s ->
     NoDup (most_likely_value s <$> row_cells s row)
     /\ Forall (fun rc => (confidence <=? most_likely_probability s rc)%float = true)
               (row_cells s row))
  /\ (forall col, 0 <= col < grid_size s ->
        NoDup (most_likely_value s <$> col_cells s col)).

(** Validity as the specification words it, with rows, columns and cells
    named by their coordinates: in every row the most likely values of two
    different cells differ and every cell's probability is at least 0.9; in
    every column the most likely values of two different cells differ. *)
Definition valid_solution_spec (s : NetworkSettling) : Prop :=
  let n := grid_size s in
  (forall row, 0 <= row < n ->
     (forall col1 col2, 0 <= col1 < n -> 0 <= col2 < n -> col1 <> col2 ->
        most_likely_value s (row, col1) <> most_likely_value s (row, col2))
     /\ (forall col, 0 <= col < n ->
           (confidence <=? most_likely_probability s (row, col))%float = true))
  /\ (forall col, 0 <= col < n ->
        forall row1 row2, 0 <= row1 < n -> 0 <= row2 < n -> row1 <> row2 ->
          most_likely_value s (row1, col) <> most_likely_value s (row2, col)).

(** The numbers [value] gives the cells of the [n] x [n] grid form a Latin
    square: two different cells of a row, or of a column, have different
    numbers. *)
Definition latin_square (n : Z) (value : cell -> Z) : Prop :=
  (forall row col1 col2, 0 <= row < n -> 0 <= col1 < n -> 0 <= col2 < n -> col1 <> col2 ->
     value (row, col1) <> value (row, col2))
  /\ (forall col row1 row2, 0 <= col < n -> 0 <= row1 < n -> 0 <= row2 < n -> row1 <> row2 ->
        value (row1, col) <> value (row2, col)).



(** A 2x2 engine whose four cells are clues forming a Latin square. *)
Definition solved_2x2 : NetworkSettling :=
  state_of (let* s := new 2 in
            run s [OpSetClue 0 0 1; OpSetClue 0 1 2; OpSetClue 1 0 2; OpSetClue 1 1 1]).

(** The other cells of the row of [(row, col)], then those of its column,
    in the order the loops of [calculate_inhibition] visit them. *)
Definition line_peers (s : NetworkSettling) (row col : Z) : list cell :=
  ((fun c => (row, c)) <$> filter (fun c => c <> col) (Py.range (grid_size s)))
  ++ ((fun r => (r, col)) <$> filter (fun r => r <> row) (Py.range (grid_size s))).

(** Those of them that are not clamped. *)
Definition free_peers (s : NetworkSettling) (row col : Z) : list cell :=
  filter (fun rc => rc ∉ clamped s) (line_peers s row col).

(** The entry for the value at [value_idx] in the distribution of [rc];
    0.0 where there is none. *)
Definition entry (s : NetworkSettling) (value_idx : Z) (rc : cell) : float :=
  match probabilities s !! rc with
  | Some probs => default 0%float (probs !! Z.to_nat value_idx)
  | None => 0%float
  end.

(** The calls of [ops] pass [set_clue] values of the grid only. *)
Definition values_in_range (n : Z) (ops : list op) : bool :=
  forallb (fun o => match o with
                    | OpSetClue _ _ value => bool_decide (1 <= value <= n)
                    | _ => true
                    end) ops.

(** The names of the fields of an object, in order. *)
Definition field_names (j : json) : list string :=
  match j with
  | JObj fields => fields.*1
  | _ => []
  end.

(** The fields of the snapshot [to_json] builds. *)
Definition snapshot_fields : list string :=
  ["grid_size"; "iteration"; "is_converged"; "probabilities"; "clamped"; "grid"].

(** The clue values of [solved_2x2]. *)
Definition solved_2x2_value (rc : cell) : Z := if bool_decide (rc.1 = rc.2) then 1 else 2.

(** Whether a string contains a comma. *)
Fixpoint has_comma (t : string) : bool :=
  match t with
  | EmptyString => false
  | String a t' => bool_decide (a = ","%char) || has_comma t'
  end.

(** The value of the field [name] of an object. *)
Fixpoint assoc (name : string) (fields : list (string * json)) : option json :=
  match fields with
  | [] => None
  | (k, v) :: fields' => if bool_decide (k = name) then Some v else assoc name fields'
  end.

Definition get_field (name : string) (j : json) : option json :=
  match j with
  | JObj fields => assoc name fields
  | _ => None
  end.

(** The number [get_state] reports under ["clamped_count"]. *)
Definition clamped_count (s : NetworkSettling) : option json :=
  get_field "clamped_count" (get_state s).

(** * Facts about the primitives *)

Section Primitives.

Lemma foldM_app {A B : Type} (f : A -> B -> res A) (a : A) (l1 l2 : list B) :
  foldM f a (l1 ++ l2) = let* a' := foldM f a l1 in foldM f a' l2.
Proof.
  revert a. induction l1 as [|x l1 IH]; intros a; simpl; [reflexivity|].
  destruct (f a x) as [a'|e]; simpl; [apply IH | reflexivity].
Qed.

Lemma elem_of_range (n k : Z) : k ∈ Py.range n <-> 0 <= k < n.
Proof.
  unfold Py.range. rewrite list_elem_of_fmap. split.
  - intros (i & -> & Hi). apply elem_of_seq in Hi. lia.
  - intros Hk. exists (Z.to_nat k). split; [lia|]. apply elem_of_seq. lia.
Qed.

Lemma NoDup_range (n : Z) : NoDup (Py.range n).
Proof.
  unfold Py.range. apply NoDup_fmap_2; [|apply NoDup_seq].
  intros i j Hij. lia.
Qed.

Lemma length_repeat {A : Type} (x : A) (n : Z) : length (copies x n) = Z.to_nat n.
Proof. unfold copies. apply length_replicate. Qed.

Lemma repeat_ok {A : Type} (x : A) (n : Z) :
  - Py.index_limit <= n < Py.index_limit -> Py.repeat x n = Ok (copies x n).
Proof. intros Hn. unfold Py.repeat. rewrite bool_decide_eq_true_2 by assumption. reflexivity. Qed.

Lemma repeat_overflow {A : Type} (x : A) (n : Z) :
  ~ (- Py.index_limit <= n < Py.index_limit) -> Py.repeat x n = Raise OverflowError.
Proof. intros Hn. unfold Py.repeat. rewrite bool_decide_eq_false_2 by assumption. reflexivity. Qed.

Lemma repeat_inv {A : Type} (x : A) (n : Z) (l : list A) :
  Py.repeat x n = Ok l -> l = copies x n /\ - Py.index_limit <= n < Py.index_limit.
Proof.
  unfold Py.repeat. case_bool_decide as Hn; [|discriminate].
  intros E. inversion E. auto.
Qed.

Lemma position_in_range {A : Type} (l : list A) (i : Z) :
  0 <= i < Z.of_nat (length l) -> Py.position l i = Ok (Z.to_nat i).
Proof. intros Hi. unfold Py.position. rewrite bool_decide_eq_true_2; auto. Qed.

Lemma getitem_in_range {A : Type} (l : list A) (i : Z) :
  0 <= i < Z.of_nat (length l) ->
  exists x, l !! Z.to_nat i = Some x /\ Py.getitem l i = Ok x.
Proof.
  intros Hi. unfold Py.getitem. rewrite position_in_range by assumption. simpl.
  destruct (lookup_lt_is_Some_2 l (Z.to_nat i)) as [x Hx]; [lia|].
  exists x. rewrite Hx. auto.
Qed.

Lemma setitem_in_range {A : Type} (l : list A) (i : Z) (x : A) :
  0 <= i < Z.of_nat (length l) -> Py.setitem l i x = Ok (<[Z.to_nat i := x]> l).
Proof.
  intros Hi. unfold Py.setitem. rewrite position_in_range by assumption. reflexivity.
Qed.

(** The subscript [-1] is the last position. *)
Lemma setitem_last {A : Type} (l : list A) (x : A) :
  l <> [] -> Py.setitem l (-1) x = Py.setitem l (Z.of_nat (length l) - 1) x.
Proof.
  intros Hl. assert (0 < length l)%nat by (destruct l; simpl; [congruence | lia]).
  unfold Py.setitem, Py.position.
  rewrite (bool_decide_eq_false_2 (0 <= -1 < _)) by lia.
  rewrite (bool_decide_eq_true_2 (- _ <= -1 < 0)) by lia.
  rewrite (bool_decide_eq_true_2 (0 <= _ - 1 < _)) by lia.
  reflexivity.
Qed.

Lemma float_of_int_ok (z : Z) :
  Z.abs z < Py.float_int_limit -> exists d, Py.float_of_int z = Ok d.
Proof.
  intros Hz. unfold Py.float_of_int. rewrite bool_decide_eq_true_2 by assumption. eauto.
Qed.

Lemma truediv_int_ok (x : float) (n : Z) :
  n <> 0 -> Z.abs n < Py.float_int_limit -> exists q, Py.truediv_int x n = Ok q.
Proof.
  intros Hn Hlim. unfold Py.truediv_int.
  destruct (float_of_int_ok n Hlim) as [d ->]. simpl.
  rewrite bool_decide_eq_false_2 by assumption. eauto.
Qed.

End Primitives.

Section Loops.

Lemma elem_of_grid_cells (n : Z) (rc : cell) :
  rc ∈ grid_cells n <-> (0 <= rc.1 < n) /\ (0 <= rc.2 < n).
Proof.
  unfold grid_cells. rewrite list_elem_of_bind. split.
  - intros (r & Hrc & Hr). apply list_elem_of_fmap in Hrc as (c & -> & Hc).
    apply elem_of_range in Hr, Hc. simpl. auto.
  - intros [Hr Hc]. exists rc.1. rewrite elem_of_range. split; [|assumption].
    apply list_elem_of_fmap. exists rc.2. rewrite elem_of_range.
    split; [destruct rc; reflexivity | assumption].
Qed.

Lemma foldl_nested {A : Type} (f : A -> cell -> A) (rows cols : list Z) (a : A) :
  foldl (fun a row => foldl (fun a col => f a (row, col)) a cols) a rows
  = foldl f a (row ← rows; (fun col => (row, col)) <$> cols).
Proof.
  revert a. induction rows as [|r rows IH]; intros a; simpl; [reflexivity|].
  rewrite foldl_app, <- IH. f_equal.
  generalize a. clear IH.
  induction cols as [|c cols IHc]; intros a'; simpl; [reflexivity | apply IHc].
Qed.

Lemma foldM_nested {A : Type} (f : A -> cell -> res A) (rows cols : list Z) (a : A) :
  foldM (fun a row => foldM (fun a col => f a (row, col)) a cols) a rows
  = foldM f a (row ← rows; (fun col => (row, col)) <$> cols).
Proof.
  revert a. induction rows as [|r rows IH]; intros a; simpl; [reflexivity|].
  rewrite foldM_app.
  assert (E : forall a', foldM (fun a col => f a (r, col)) a' cols
                         = foldM f a' ((fun col => (r, col)) <$> cols)).
  { clear IH. induction cols as [|c cols IHc]; intros a'; simpl; [reflexivity|].
    destruct (f a' (r, c)); simpl; [apply IHc | reflexivity]. }
  rewrite E. destruct (foldM f a _); simpl; [apply IH | reflexivity].
Qed.

(** A loop that stores the same value under every key it visits. *)
Lemma store_loop_out (v : list float) (l : list cell) (d : gmap cell (list float)) (rc : cell) :
  rc ∉ l -> foldl (fun d k => <[k := v]> d) d l !! rc = d !! rc.
Proof.
  revert d. induction l as [|k l IH]; intros d Hout; simpl; [reflexivity|].
  apply not_elem_of_cons in Hout as [Hne Hout].
  rewrite IH by assumption. apply lookup_insert_ne. congruence.
Qed.

Lemma store_loop_in (v : list float) (l : list cell) (d : gmap cell (list float)) (rc : cell) :
  rc ∈ l -> foldl (fun d k => <[k := v]> d) d l !! rc = Some v.
Proof.
  revert d. induction l as [|k l IH]; intros d Hin; simpl.
  - inversion Hin.
  - destruct (decide (rc ∈ l)) as [Hl|Hl]; [apply IH, Hl|].
    rewrite store_loop_out by assumption.
    apply elem_of_cons in Hin as [->|Hin]; [apply lookup_insert_eq | contradiction].
Qed.

Lemma fill_uniform_cells (n : Z) (u : float) (d : gmap cell (list float)) :
  filled n u d = foldl (fun d k => <[k := copies u n]> d) d (grid_cells n).
Proof. unfold filled, grid_cells. apply (foldl_nested (fun d k => <[k := _]> d)). Qed.

Lemma fill_uniform_in (n : Z) (u : float) (d : gmap cell (list float)) (rc : cell) :
  (0 <= rc.1 < n) /\ (0 <= rc.2 < n) -> filled n u d !! rc = Some (copies u n).
Proof.
  intros H. rewrite fill_uniform_cells. apply store_loop_in, elem_of_grid_cells, H.
Qed.

Lemma fill_uniform_out (n : Z) (u : float) (d : gmap cell (list float)) (rc : cell) :
  ~ ((0 <= rc.1 < n) /\ (0 <= rc.2 < n)) -> filled n u d !! rc = d !! rc.
Proof.
  intros H. rewrite fill_uniform_cells. apply store_loop_out.
  rewrite elem_of_grid_cells. exact H.
Qed.

(** The loops of [initialize] as one loop over the cells of the grid. *)
Lemma fill_uniform_loop (n : Z) (u : float) (d : gmap cell (list float)) :
  fill_uniform n u d
  = foldM (fun d k => let* probs := Py.repeat u n in Ok (<[k := probs]> d)) d (grid_cells n).
Proof.
  unfold fill_uniform, grid_cells.
  apply (foldM_nested (fun d k => let* probs := Py.repeat u n in Ok (<[k := probs]> d))).
Qed.

(** Below the index limit the loops run to their end. *)
Lemma fill_uniform_ok (n : Z) (u : float) (d : gmap cell (list float)) :
  n < Py.index_limit -> fill_uniform n u d = Ok (filled n u d).
Proof.
  intros Hn. rewrite fill_uniform_loop, fill_uniform_cells.
  destruct (decide (0 < n)) as [Hpos|Hneg].
  - rewrite repeat_ok by (unfold Py.index_limit in *; lia).
    generalize (grid_cells n). intros l. revert d.
    induction l as [|k l IH]; intros d; simpl; [reflexivity | apply IH].
  - assert (E : grid_cells n = []).
    { destruct (grid_cells n) as [|rc l] eqn:E; [reflexivity|].
      assert (Hin : rc ∈ grid_cells n) by (rewrite E; left).
      apply elem_of_grid_cells in Hin. lia. }
    rewrite E. reflexivity.
Qed.

(** From the index limit on the first list cannot be built. *)
Lemma fill_uniform_overflow (n : Z) (u : float) (d : gmap cell (list float)) :
  Py.index_limit <= n -> fill_uniform n u d = Raise OverflowError.
Proof.
  intros Hn. rewrite fill_uniform_loop.
  destruct (grid_cells n) as [|rc l] eqn:E.
  - assert (Hin : (0, 0) ∈ grid_cells n)
      by (apply elem_of_grid_cells; unfold Py.index_limit in Hn; simpl; lia).
    rewrite E in Hin. inversion Hin.
  - simpl. rewrite repeat_overflow by lia. reflexivity.
Qed.

End Loops.

(** * Facts about the methods *)

Section Methods.

(** An index fits a [float], and so does the number of peers of a cell. *)
Lemma index_limit_float (n : Z) :
  - Py.index_limit <= n < Py.index_limit -> 2 * Z.abs n < Py.float_int_limit.
Proof.
  intros Hn. assert (Py.index_limit * 2 < Py.float_int_limit) by (vm_compute; reflexivity).
  lia.
Qed.

Lemma wf_limit (s : NetworkSettling) : wf s -> 2 * Z.abs (grid_size s) < Py.float_int_limit.
Proof. intros Hwf. apply index_limit_float, wf_index, Hwf. Qed.

Lemma uniform_ok (s : NetworkSettling) :
  wf s -> exists u, Py.truediv_int 1%float (grid_size s) = Ok u
                    /\ uniform s = Ok (copies u (grid_size s)).
Proof.
  intros Hwf. pose proof (wf_limit s Hwf) as Hlim. destruct Hwf as [Hnz Hidx _].
  destruct (truediv_int_ok 1%float (grid_size s) Hnz) as [u Hu]; [lia|].
  exists u. unfold uniform. rewrite Hu. cbn [bind]. rewrite repeat_ok by assumption. auto.
Qed.

Lemma initialize_ok (s : NetworkSettling) (u : float) :
  grid_size s < Py.index_limit ->
  Py.truediv_int 1%float (grid_size s) = Ok u ->
  initialize s = Ok {| grid_size := grid_size s;
                       probabilities := filled (grid_size s) u (probabilities s);
                       clamped := clamped s;
                       iteration := 0;
                       convergence_threshold := convergence_threshold s;
                       inhibition_strength := inhibition_strength s;
                       is_converged := false |}.
Proof.
  intros Hn Hu. unfold initialize. rewrite Hu. cbn [bind].
  rewrite fill_uniform_ok by assumption. reflexivity.
Qed.

Lemma truediv_int_nonzero (x : float) (n : Z) (q : float) :
  Py.truediv_int x n = Ok q -> n <> 0 /\ Z.abs n < Py.float_int_limit.
Proof.
  unfold Py.truediv_int, Py.float_of_int. case_bool_decide as Hlim; simpl; [|discriminate].
  case_bool_decide; [discriminate|]. auto.
Qed.

Lemma in_grid_positive (s : NetworkSettling) (rc : cell) : in_grid s rc -> 0 < grid_size s.
Proof. intros [? ?]. lia. Qed.

End Methods.

(** * The most likely value of a cell *)

Section MostLikely.

Lemma max_scan_pos (l : list float) (best : float) (pos i : nat) :
  (pos < i)%nat -> ((Py.max_scan best pos i l).2 < i + length l)%nat.
Proof.
  revert best pos i. induction l as [|y l IH]; intros best pos i Hpos; simpl; [lia|].
  destruct (best <? y)%float.
  - specialize (IH y i (S i)). lia.
  - specialize (IH best pos (S i)). lia.
Qed.

Lemma index_from_ok (x : float) (pos : nat) (l : list float) (i : nat) :
  (i <= pos < i + length l)%nat ->
  exists k, Py.index_from x pos i l = Ok k /\ (i <= k <= pos)%nat.
Proof.
  revert i. induction l as [|y l IH]; intros i Hpos; simpl in *; [lia|].
  destruct (bool_decide (i = pos) || (y =? x)%float) eqn:E.
  - exists i. split; [reflexivity | lia].
  - apply orb_false_iff in E as [E _]. apply bool_decide_eq_false in E.
    destruct (IH (S i)) as (k & Hk & ?); [lia|]. exists k. split; [assumption | lia].
Qed.

Lemma get_most_likely_value_ok (s : NetworkSettling) (row col : Z) (probs : list float) :
  probabilities s !! (row, col) = Some probs -> probs <> [] ->
  exists value max_prob,
    get_most_likely_value s row col = Ok (value, max_prob)
    /\ 1 <= value <= Z.of_nat (length probs).
Proof.
  intros Hp Hne. unfold get_most_likely_value, Py.subscript. rewrite Hp. simpl.
  destruct probs as [|x l]; [congruence|]. simpl.
  destruct (Py.max_scan x 0 1 l) as [m pos] eqn:Hscan.
  pose proof (max_scan_pos l x 0 1 ltac:(lia)) as Hpos. rewrite Hscan in Hpos. simpl in Hpos.
  destruct (index_from_ok m pos (x :: l) 0) as (k & Hk & Hle); [simpl; lia|].
  simpl in Hk. rewrite Hk. simpl. exists (Z.of_nat k + 1), m.
  split; [reflexivity|]. simpl. lia.
Qed.

(** In a well-formed engine every cell of the grid has a most likely value,
    and it is one of [1 .. grid_size]. *)
Lemma get_most_likely_value_wf (s : NetworkSettling) (rc : cell) :
  wf s -> in_grid s rc ->
  exists value max_prob,
    get_most_likely_value s rc.1 rc.2 = Ok (value, max_prob) /\ 1 <= value <= grid_size s.
Proof.
  intros Hwf Hin. destruct (wf_cells s Hwf rc Hin) as (probs & Hp & Hlen).
  pose proof (in_grid_positive s rc Hin).
  destruct rc as [row col].
  destruct (get_most_likely_value_ok s row col probs Hp) as (v & m & Hv & Hr).
  - destruct probs; simpl in Hlen; [lia | congruence].
  - exists v, m. split; [assumption | lia].
Qed.

End MostLikely.

(** * The update rule never raises on a well-formed engine *)

Section UpdateRule.

Context (s : NetworkSettling) (Hwf : wf s).

Lemma clamped_elsewhere_ok (at_ : Z -> cell) (self value : Z) (l : list Z) :
  (forall k, k ∈ l -> in_grid s (at_ k)) ->
  exists b, clamped_elsewhere s at_ self value l = Ok b.
Proof.
  induction l as [|k l IH]; intros Hl; simpl; [eauto|].
  destruct IH as [b IH]; [intros k' Hk'; apply Hl; right; exact Hk'|].
  case_bool_decide; [eauto|]. case_bool_decide; [|eauto].
  destruct (get_most_likely_value_wf s (at_ k) Hwf) as (v & m & -> & _);
    [apply Hl; left|]. simpl.
  case_bool_decide; eauto.
Qed.

Lemma clamped_elsewhere_found (at_ : Z -> cell) (self value : Z) (l : list Z)
    (k0 : Z) (p : float) :
  (forall k, k ∈ l -> in_grid s (at_ k)) ->
  k0 ∈ l -> k0 <> self -> at_ k0 ∈ clamped s ->
  get_most_likely_value s (at_ k0).1 (at_ k0).2 = Ok (value, p) ->
  clamped_elsewhere s at_ self value l = Ok true.
Proof.
  intros Hl Hk0 Hself Hcl Hv. induction l as [|k l IH]; simpl; [inversion Hk0|].
  assert (Hl' : forall k', k' ∈ l -> in_grid s (at_ k'))
    by (intros k' Hk'; apply Hl; right; exact Hk').
  destruct (decide (k = k0)) as [->|Hne].
  - rewrite bool_decide_eq_false_2 by assumption.
    rewrite bool_decide_eq_true_2 by assumption.
    rewrite Hv. simpl. rewrite bool_decide_eq_true_2; reflexivity.
  - apply elem_of_cons in Hk0 as [?|Hk0]; [congruence|].
    specialize (IH Hl' Hk0).
    case_bool_decide; [assumption|]. case_bool_decide; [|assumption].
    destruct (get_most_likely_value_wf s (at_ k) Hwf) as (v & m & -> & _);
      [apply Hl; left|]. simpl.
    case_bool_decide; [reflexivity | assumption].
Qed.

Lemma row_in_grid (row col k : Z) :
  in_grid s (row, col) -> k ∈ Py.range (grid_size s) -> in_grid s (row, k).
Proof. intros [? ?] Hk. apply elem_of_range in Hk. split; simpl in *; lia. Qed.

Lemma col_in_grid (row col k : Z) :
  in_grid s (row, col) -> k ∈ Py.range (grid_size s) -> in_grid s (k, col).
Proof. intros [? ?] Hk. apply elem_of_range in Hk. split; simpl in *; lia. Qed.

Lemma is_value_impossible_ok (row col value_idx : Z) :
  in_grid s (row, col) -> exists b, is_value_impossible s row col value_idx = Ok b.
Proof.
  intros Hin. unfold is_value_impossible.
  destruct (clamped_elsewhere_ok (fun c => (row, c)) col (value_idx + 1)
              (Py.range (grid_size s))) as [b ->]; [eauto using row_in_grid|].
  simpl. destruct b; [eauto|].
  apply clamped_elsewhere_ok. eauto using col_in_grid.
Qed.

End UpdateRule.

Section Inhibition.

Context (s : NetworkSettling) (Hwf : wf s).

Lemma length_range (n : Z) : length (Py.range n) = Z.to_nat n.
Proof. unfold Py.range. rewrite length_fmap. apply length_seq. Qed.

Lemma inhibition_loop_cons (at_ : Z -> cell) (self value_idx : Z) (k : Z) (l : list Z)
    (total : float) (count : Z) :
  inhibition_loop s at_ self value_idx (total, count) (k :: l)
  = if bool_decide (k = self) then inhibition_loop s at_ self value_idx (total, count) l
    else if bool_decide (at_ k ∉ clamped s) then
      let* probs := Py.subscript (probabilities s) (at_ k) in
      let* prob := Py.getitem probs value_idx in
      inhibition_loop s at_ self value_idx ((total + prob)%float, count + 1) l
    else inhibition_loop s at_ self value_idx (total, count) l.
Proof.
  unfold inhibition_loop. simpl.
  case_bool_decide; [reflexivity|]. case_bool_decide; [|reflexivity].
  destruct (Py.subscript (probabilities s) (at_ k)) as [probs|]; simpl; [|reflexivity].
  destruct (Py.getitem probs value_idx); reflexivity.
Qed.

(** The loop adds at most one to [count] per index. *)
Lemma inhibition_loop_ok (at_ : Z -> cell) (self value_idx : Z) (l : list Z)
    (total : float) (count : Z) :
  0 <= value_idx < grid_size s ->
  (forall k, k ∈ l -> in_grid s (at_ k)) ->
  exists total' count',
    inhibition_loop s at_ self value_idx (total, count) l = Ok (total', count')
    /\ count <= count' <= count + Z.of_nat (length l).
Proof.
  intros Hv. revert total count.
  induction l as [|k l IH]; intros total count Hl.
  - exists total, count. split; [reflexivity | simpl; lia].
  - assert (Hl' : forall k', k' ∈ l -> in_grid s (at_ k'))
      by (intros k' Hk'; apply Hl; right; exact Hk').
    rewrite inhibition_loop_cons. simpl length.
    case_bool_decide.
    { destruct (IH total count Hl') as (t & c & -> & ?). exists t, c. split; [reflexivity | lia]. }
    case_bool_decide.
    2:{ destruct (IH total count Hl') as (t & c & -> & ?). exists t, c. split; [reflexivity | lia]. }
    destruct (wf_cells s Hwf (at_ k)) as (probs & Hp & Hlen); [apply Hl; left|].
    unfold Py.subscript. rewrite Hp. simpl.
    destruct (getitem_in_range probs value_idx) as (x & _ & ->); [lia|]. simpl.
    destruct (IH (total + x)%float (count + 1) Hl') as (t & c & -> & ?).
    exists t, c. split; [reflexivity | lia].
Qed.

Lemma calculate_inhibition_ok (row col value_idx : Z) :
  in_grid s (row, col) -> 0 <= value_idx < grid_size s ->
  exists inhibition, calculate_inhibition s row col value_idx = Ok inhibition.
Proof.
  intros Hin Hv. unfold calculate_inhibition.
  destruct (inhibition_loop_ok (fun c => (row, c)) col value_idx (Py.range (grid_size s))
              0%float 0 Hv) as (t1 & c1 & -> & Hc1); [eauto using row_in_grid|].
  simpl.
  destruct (inhibition_loop_ok (fun r => (r, col)) row value_idx (Py.range (grid_size s))
              t1 c1 Hv) as (t2 & c2 & -> & Hc2); [eauto using col_in_grid|].
  simpl. rewrite length_range in *.
  case_bool_decide; [|eauto].
  apply truediv_int_ok; [lia|]. pose proof (wf_limit s Hwf). lia.
Qed.

Lemma getitem_setitem {A : Type} (l : list A) (i : Z) (x : A) :
  0 <= i < Z.of_nat (length l) ->
  Py.getitem (<[Z.to_nat i := x]> l) i = Ok x.
Proof.
  intros Hi. unfold Py.getitem. rewrite position_in_range by (rewrite length_insert; lia).
  simpl. rewrite list_lookup_insert_eq by lia. reflexivity.
Qed.

(** One pass of the loop body: it succeeds, writes slot [value_idx] only,
    and writes [0.0] there when the value is impossible. *)
Lemma update_value_ok (row col value_idx : Z) (current_probs new_probs : list float) :
  in_grid s (row, col) -> 0 <= value_idx < grid_size s ->
  length current_probs = Z.to_nat (grid_size s) ->
  length new_probs = Z.to_nat (grid_size s) ->
  exists x,
    update_value s row col current_probs new_probs value_idx
      = Ok (<[Z.to_nat value_idx := x]> new_probs)
    /\ (is_value_impossible s row col value_idx = Ok true -> x = 0%float).
Proof.
  intros Hin Hv Hcur Hnew. unfold update_value.
  destruct (is_value_impossible_ok s Hwf row col value_idx Hin) as [b ->]. simpl.
  destruct b.
  - exists 0%float. rewrite setitem_in_range by lia. auto.
  - destruct (calculate_inhibition_ok row col value_idx Hin Hv) as [inh ->]. simpl.
    destruct (getitem_in_range current_probs value_idx) as (cur & _ & ->); [lia|]. simpl.
    rewrite setitem_in_range by lia. simpl.
    rewrite getitem_setitem by lia. simpl.
    rewrite setitem_in_range by (rewrite length_insert; lia).
    rewrite list_insert_insert_eq. eexists. split; [reflexivity | discriminate].
Qed.

(** The passes for other values leave a slot as it is. *)
Lemma update_loop_keeps (row col v : Z) (current_probs : list float) (l : list Z)
    (new_probs out : list float) :
  in_grid s (row, col) -> 0 <= v ->
  length current_probs = Z.to_nat (grid_size s) ->
  length new_probs = Z.to_nat (grid_size s) ->
  v ∉ l -> (forall w, w ∈ l -> 0 <= w < grid_size s) ->
  foldM (update_value s row col current_probs) new_probs l = Ok out ->
  out !! Z.to_nat v = new_probs !! Z.to_nat v.
Proof.
  intros Hin Hv Hcur. revert new_probs.
  induction l as [|w l IH]; intros new_probs Hnew Hnot Hl Hf; simpl in Hf.
  - congruence.
  - apply not_elem_of_cons in Hnot as [Hne Hnot].
    assert (Hw : 0 <= w < grid_size s) by (apply Hl; left).
    destruct (update_value_ok row col w current_probs new_probs Hin Hw Hcur Hnew)
      as (y & Hy & _).
    rewrite Hy in Hf. simpl in Hf.
    rewrite (IH (<[Z.to_nat w := y]> new_probs)); [| | assumption | | assumption].
    + apply list_lookup_insert_ne. lia.
    + rewrite length_insert. assumption.
    + intros w' Hw'. apply Hl. right. exact Hw'.
Qed.

Lemma update_loop_ok (row col : Z) (current_probs : list float) (l : list Z)
    (new_probs : list float) :
  in_grid s (row, col) ->
  length current_probs = Z.to_nat (grid_size s) ->
  length new_probs = Z.to_nat (grid_size s) ->
  NoDup l -> (forall v, v ∈ l -> 0 <= v < grid_size s) ->
  exists out,
    foldM (update_value s row col current_probs) new_probs l = Ok out
    /\ length out = Z.to_nat (grid_size s)
    /\ (forall v, v ∈ l -> is_value_impossible s row col v = Ok true ->
                  out !! Z.to_nat v = Some 0%float).
Proof.
  intros Hin Hcur. revert new_probs.
  induction l as [|v l IH]; intros new_probs Hnew Hnd Hl; simpl.
  - exists new_probs. split; [reflexivity|]. split; [assumption|]. intros v Hv. inversion Hv.
  - apply NoDup_cons in Hnd as [Hv Hnd].
    assert (Hvr : 0 <= v < grid_size s) by (apply Hl; left).
    assert (Hl' : forall w, w ∈ l -> 0 <= w < grid_size s)
      by (intros w Hw; apply Hl; right; exact Hw).
    destruct (update_value_ok row col v current_probs new_probs Hin Hvr Hcur Hnew)
      as (x & -> & Hx). simpl.
    assert (Hlen' : length (<[Z.to_nat v := x]> new_probs) = Z.to_nat (grid_size s))
      by (rewrite length_insert; assumption).
    destruct (IH (<[Z.to_nat v := x]> new_probs) Hlen' Hnd Hl') as (out & Hout & Hlen & Hzero).
    exists out. split; [assumption|]. split; [assumption|].
    intros v' Hv' Himp. apply elem_of_cons in Hv' as [E|Hv']; [subst v'|apply Hzero; assumption].
    rewrite (update_loop_keeps row col v current_probs l _ out Hin ltac:(lia) Hcur Hlen' Hv Hl' Hout).
    rewrite list_lookup_insert_eq by lia. f_equal. apply Hx, Himp.
Qed.

End Inhibition.

(** * One round on a well-formed engine *)

Section Round.

Context (s : NetworkSettling) (Hwf : wf s).

Lemma unnormalized_ok (row col : Z) :
  in_grid s (row, col) ->
  exists new_probs,
    unnormalized s row col = Ok new_probs
    /\ length new_probs = Z.to_nat (grid_size s)
    /\ (forall v, 0 <= v < grid_size s -> is_value_impossible s row col v = Ok true ->
                  new_probs !! Z.to_nat v = Some 0%float).
Proof.
  intros Hin. destruct (wf_cells s Hwf (row, col) Hin) as (cur & Hcur & Hlen).
  unfold unnormalized, Py.subscript. rewrite Hcur. simpl.
  destruct (update_loop_ok s Hwf row col cur (Py.range (grid_size s)) cur Hin Hlen Hlen
              (NoDup_range _)) as (out & Hout & Hlen' & Hzero).
  { intros v Hv. apply elem_of_range in Hv. exact Hv. }
  exists out. split; [assumption|]. split; [assumption|].
  intros v Hv. apply Hzero, elem_of_range, Hv.
Qed.

Lemma normalize_ok (probs : list float) :
  length probs = Z.to_nat (grid_size s) ->
  exists out, normalize s probs = Ok out /\ length out = Z.to_nat (grid_size s).
Proof.
  intros Hlen. unfold normalize. destruct (Py.sum probs =? 0)%float.
  - fold (uniform s). destruct (uniform_ok s Hwf) as (u & _ & ->).
    eexists. split; [reflexivity | apply length_repeat].
  - eexists. split; [reflexivity|]. rewrite length_fmap. assumption.
Qed.

Lemma calculate_new_probabilities_ok (row col : Z) :
  in_grid s (row, col) ->
  exists out, calculate_new_probabilities s row col = Ok out
              /\ length out = Z.to_nat (grid_size s).
Proof.
  intros Hin. unfold calculate_new_probabilities.
  destruct (unnormalized_ok row col Hin) as (np & -> & Hlen & _). simpl.
  apply normalize_ok, Hlen.
Qed.

Lemma calculate_change_ok (old_probs new_probs : list float) :
  old_probs <> [] -> new_probs <> [] ->
  exists change, calculate_change old_probs new_probs = Ok change.
Proof.
  intros Ho Hn. destruct old_probs as [|o ol]; [congruence|].
  destruct new_probs as [|n nl]; [congruence|].
  unfold calculate_change. simpl. destruct (Py.max_scan _ _ _ _). simpl. eauto.
Qed.

Lemma next_probs_ok (rc : cell) :
  in_grid s rc ->
  exists out, next_probs s rc = Ok out /\ length out = Z.to_nat (grid_size s).
Proof.
  intros Hin. unfold next_probs. case_bool_decide.
  - destruct (wf_cells s Hwf rc Hin) as (p & Hp & Hlen).
    unfold Py.subscript. rewrite Hp. eauto.
  - destruct rc as [row col]. apply calculate_new_probabilities_ok, Hin.
Qed.

Lemma step_cell_ok (rc : cell) (new_probabilities : gmap cell (list float))
    (max_change : float) :
  in_grid s rc ->
  exists out max_change',
    next_probs s rc = Ok out
    /\ step_cell s (new_probabilities, max_change) rc
       = Ok (<[rc := out]> new_probabilities, max_change').
Proof.
  intros Hin. destruct (next_probs_ok rc Hin) as (out & Hout & Hlen).
  pose proof (in_grid_positive s rc Hin) as Hpos.
  exists out. unfold step_cell, next_probs in *. case_bool_decide.
  - rewrite Hout. simpl. eauto.
  - rewrite Hout. simpl.
    destruct (wf_cells s Hwf rc Hin) as (p & Hp & Hlenp).
    unfold Py.subscript. rewrite Hp. simpl.
    destruct (calculate_change_ok p out) as [change ->].
    + destruct p; simpl in Hlenp; [lia | congruence].
    + destruct out; simpl in Hlen; [lia | congruence].
    + simpl. eauto.
Qed.

(** The loop over a list of cells of the grid: it stores the next
    distribution of each of them and leaves the other keys alone. *)
Lemma step_cells_ok (l : list cell) (new_probabilities : gmap cell (list float))
    (max_change : float) :
  (forall rc, rc ∈ l -> in_grid s rc) ->
  exists new_probabilities' max_change',
    foldM (step_cell s) (new_probabilities, max_change) l
      = Ok (new_probabilities', max_change')
    /\ (forall rc, rc ∈ l -> Ok <$> new_probabilities' !! rc = Some (next_probs s rc))
    /\ (forall rc, rc ∉ l -> new_probabilities' !! rc = new_probabilities !! rc).
Proof.
  revert new_probabilities max_change.
  induction l as [|rc l IH]; intros d mc Hl; cbn [foldM].
  - exists d, mc. split; [reflexivity|]. split; [|reflexivity]. intros rc Hrc. inversion Hrc.
  - destruct (step_cell_ok rc d mc) as (out & mc1 & Hnext & ->); [apply Hl; left|]. cbn [bind].
    destruct (IH (<[rc := out]> d) mc1) as (d' & mc' & -> & Hin & Hout);
      [intros rc' Hrc'; apply Hl; right; exact Hrc'|].
    exists d', mc'. split; [reflexivity|]. split.
    + intros rc' Hrc'. destruct (decide (rc' ∈ l)) as [Hl'|Hl']; [apply Hin, Hl'|].
      apply elem_of_cons in Hrc' as [->|?]; [|contradiction].
      rewrite Hout by assumption. rewrite lookup_insert_eq, Hnext. reflexivity.
    + intros rc' Hrc'. apply not_elem_of_cons in Hrc' as [Hne Hrc'].
      rewrite Hout by assumption. apply lookup_insert_ne. congruence.
Qed.

Lemma step_loop_ok :
  exists new_probabilities max_change,
    step_loop s = Ok (new_probabilities, max_change)
    /\ (forall rc, in_grid s rc -> Ok <$> new_probabilities !! rc = Some (next_probs s rc))
    /\ (forall rc, ~ in_grid s rc -> new_probabilities !! rc = None).
Proof.
  unfold step_loop.
  rewrite (foldM_nested (step_cell s)). fold (grid_cells (grid_size s)).
  destruct (step_cells_ok (grid_cells (grid_size s)) ∅ 0%float) as (d & mc & -> & Hin & Hout).
  { intros rc Hrc. apply elem_of_grid_cells in Hrc. exact Hrc. }
  exists d, mc. split; [reflexivity|]. split.
  - intros rc Hrc. apply Hin, elem_of_grid_cells, Hrc.
  - intros rc Hrc. rewrite Hout; [apply lookup_empty|].
    rewrite elem_of_grid_cells. exact Hrc.
Qed.

End Round.

Section Step.

Lemma step_ok (s : NetworkSettling) :
  wf s -> is_converged s = false ->
  exists max_change s',
    step s = Ok (max_change, s')
    /\ grid_size s' = grid_size s
    /\ clamped s' = clamped s
    /\ iteration s' = iteration s + 1
    /\ convergence_threshold s' = convergence_threshold s
    /\ inhibition_strength s' = inhibition_strength s
    /\ (forall rc, in_grid s rc -> Ok <$> probabilities s' !! rc = Some (next_probs s rc))
    /\ (forall rc, ~ in_grid s rc -> probabilities s' !! rc = None).
Proof.
  intros Hwf Hconv. destruct (step_loop_ok s Hwf) as (d & mc & Hloop & Hin & Hout).
  unfold step. rewrite Hconv, Hloop. simpl.
  eexists _, _. split; [reflexivity|]. simpl. auto 10.
Qed.

Lemma step_converged (s : NetworkSettling) :
  is_converged s = true -> step s = Ok (0%float, s).
Proof. intros H. unfold step. rewrite H. reflexivity. Qed.

(** A round keeps the engine well formed. *)
Lemma step_wf (s : NetworkSettling) (max_change : float) (s' : NetworkSettling) :
  wf s -> step s = Ok (max_change, s') -> wf s'.
Proof.
  intros Hwf Hstep. destruct (is_converged s) eqn:Hconv.
  - rewrite step_converged in Hstep by assumption. congruence.
  - destruct (step_ok s Hwf Hconv) as (mc & s1 & Hs1 & Hn & _ & _ & _ & _ & Hin & _).
    assert (s1 = s') by congruence. subst s1.
    destruct Hwf as [Hnz Hlim Hcells]. split; rewrite ?Hn; try assumption.
    intros rc Hrc. assert (Hrc' : in_grid s rc) by (unfold in_grid in *; rewrite <- Hn; exact Hrc).
    specialize (Hin rc Hrc').
    destruct (next_probs_ok s (Build_wf _ Hnz Hlim Hcells) rc Hrc') as (out & Hout & Hlen).
    rewrite Hout in Hin. destruct (probabilities s' !! rc) as [p|]; simpl in Hin; [|discriminate].
    exists p. split; [reflexivity|]. congruence.
Qed.

(** A round on a well-formed engine returns. *)
Lemma step_total (s : NetworkSettling) :
  wf s -> exists max_change s', step s = Ok (max_change, s') /\ wf s'.
Proof.
  intros Hwf. destruct (is_converged s) eqn:Hconv.
  - exists 0%float, s. split; [apply step_converged, Hconv | assumption].
  - destruct (step_ok s Hwf Hconv) as (mc & s' & Hs & _). exists mc, s'.
    split; [assumption | eapply step_wf; eassumption].
Qed.

(** A clamped cell of the grid goes through a round unchanged. *)
Lemma step_clamped (s : NetworkSettling) (max_change : float) (s' : NetworkSettling)
    (rc : cell) :
  wf s -> step s = Ok (max_change, s') -> in_grid s rc -> rc ∈ clamped s ->
  probabilities s' !! rc = probabilities s !! rc /\ rc ∈ clamped s' /\ in_grid s' rc.
Proof.
  intros Hwf Hstep Hin Hcl. destruct (is_converged s) eqn:Hconv.
  - rewrite step_converged in Hstep by assumption.
    assert (s' = s) by congruence. subst. auto.
  - destruct (step_ok s Hwf Hconv) as (mc & s1 & Hs1 & Hn & Hc & _ & _ & _ & Hnext & _).
    assert (s1 = s') by congruence. subst s1.
    split; [|split; [rewrite Hc; assumption | unfold in_grid; rewrite Hn; exact Hin]].
    specialize (Hnext rc Hin). unfold next_probs in Hnext.
    rewrite bool_decide_eq_true_2 in Hnext by assumption.
    destruct (wf_cells s Hwf rc Hin) as (p & Hp & _).
    unfold Py.subscript in Hnext. rewrite Hp in *.
    destruct (probabilities s' !! rc); simpl in Hnext; congruence.
Qed.

End Step.

(** * One-hot distributions *)

Section OneHot.

Lemma max_scan_zeros (best : float) (pos i j : nat) :
  best = 0%float \/ best = 1%float ->
  Py.max_scan best pos i (replicate j 0%float) = (best, pos).
Proof.
  intros Hbest. revert i. induction j as [|j IH]; intros i; simpl; [reflexivity|].
  destruct Hbest as [-> | ->]; simpl; apply IH.
Qed.

Lemma max_scan_one_hot (n k pos i : nat) :
  (k < n)%nat ->
  Py.max_scan 0%float pos i (<[k := 1%float]> (replicate n 0%float)) = (1%float, (i + k)%nat).
Proof.
  revert k pos i. induction n as [|n IH]; intros k pos i Hk; [lia|].
  destruct k as [|k]; simpl.
  - rewrite max_scan_zeros by auto. f_equal. lia.
  - rewrite IH by lia. f_equal. lia.
Qed.

Lemma max_of_one_hot (n k : nat) :
  (k < n)%nat -> Py.max_of (<[k := 1%float]> (replicate n 0%float)) = Ok (1%float, k).
Proof.
  intros Hk. destruct n as [|n]; [lia|]. destruct k as [|k]; simpl.
  - rewrite max_scan_zeros by auto. reflexivity.
  - rewrite max_scan_one_hot by lia. reflexivity.
Qed.

Lemma index_from_one_hot (n k i : nat) :
  (k < n)%nat ->
  Py.index_from 1%float (i + k) i (<[k := 1%float]> (replicate n 0%float)) = Ok (i + k)%nat.
Proof.
  revert k i. induction n as [|n IH]; intros k i Hk; [lia|].
  destruct k as [|k]; simpl.
  - rewrite bool_decide_eq_true_2 by lia. simpl. f_equal. lia.
  - rewrite bool_decide_eq_false_2 by lia. simpl.
    replace (i + S k)%nat with (S i + k)%nat by lia. apply IH. lia.
Qed.

(** The most likely value of a one-hot cell is the value of its slot. *)
Lemma get_most_likely_value_one_hot (s : NetworkSettling) (row col : Z) (k : nat) :
  (k < Z.to_nat (grid_size s))%nat ->
  probabilities s !! (row, col) = Some (one_hot (grid_size s) k) ->
  get_most_likely_value s row col = Ok (Z.of_nat k + 1, 1%float).
Proof.
  intros Hk Hp. unfold get_most_likely_value, Py.subscript. rewrite Hp. simpl.
  unfold one_hot, copies. rewrite max_of_one_hot by assumption. simpl.
  rewrite (index_from_one_hot _ k 0) by assumption. reflexivity.
Qed.

End OneHot.

(** * Clues *)

Section Clues.

Lemma wf_check_sound (s : NetworkSettling) : wf_check s = true -> wf s.
Proof.
  unfold wf_check. intros H.
  apply andb_prop in H as [H Hcells]. apply andb_prop in H as [Hnz Hlim].
  apply bool_decide_eq_true in Hnz, Hlim. split; [assumption | assumption |].
  intros rc Hrc. rewrite forallb_forall in Hcells.
  specialize (Hcells rc). rewrite <- list_elem_of_In, elem_of_grid_cells in Hcells.
  specialize (Hcells Hrc). destruct (probabilities s !! rc) as [p|]; [|discriminate].
  apply bool_decide_eq_true in Hcells. eauto.
Qed.

Lemma new_blank (n : Z) : new n = initialize (blank n).
Proof. reflexivity. Qed.

(** What a call that returns has done. *)
Lemma set_clue_inv (s s' : NetworkSettling) (row col value : Z) :
  set_clue s row col value = Ok s' ->
  - Py.index_limit <= grid_size s < Py.index_limit
  /\ exists probs,
       Py.setitem (copies 0%float (grid_size s)) (value - 1) 1%float = Ok probs
       /\ s' = {| grid_size := grid_size s;
                  probabilities := <[(row, col) := probs]> (probabilities s);
                  clamped := {[(row, col)]} ∪ clamped s;
                  iteration := iteration s;
                  convergence_threshold := convergence_threshold s;
                  inhibition_strength := inhibition_strength s;
                  is_converged := is_converged s |}.
Proof.
  unfold set_clue. intros H.
  destruct (Py.repeat 0%float (grid_size s)) as [zeros|] eqn:Hz; simpl in H; [|discriminate].
  apply repeat_inv in Hz as [-> Hn]. split; [assumption|].
  destruct (Py.setitem _ _ _) as [probs|] eqn:Hset; simpl in H; [|discriminate].
  exists probs. split; [reflexivity|]. inversion H. reflexivity.
Qed.

Lemma remove_clue_inv (s s' : NetworkSettling) (row col : Z) :
  remove_clue s row col = Ok s' ->
  - Py.index_limit <= grid_size s < Py.index_limit
  /\ exists u,
       Py.truediv_int 1%float (grid_size s) = Ok u
       /\ s' = {| grid_size := grid_size s;
                  probabilities := <[(row, col) := copies u (grid_size s)]> (probabilities s);
                  clamped := clamped s ∖ {[(row, col)]};
                  iteration := iteration s;
                  convergence_threshold := convergence_threshold s;
                  inhibition_strength := inhibition_strength s;
                  is_converged := is_converged s |}.
Proof.
  unfold remove_clue. intros H.
  destruct (Py.truediv_int 1%float (grid_size s)) as [u|] eqn:Hu; simpl in H; [|discriminate].
  destruct (Py.repeat u (grid_size s)) as [probs|] eqn:Hr; simpl in H; [|discriminate].
  apply repeat_inv in Hr as [-> Hn]. split; [assumption|].
  exists u. split; [reflexivity|]. inversion H. reflexivity.
Qed.

Lemma initialize_inv (s s' : NetworkSettling) :
  initialize s = Ok s' ->
  grid_size s < Py.index_limit
  /\ exists u,
       Py.truediv_int 1%float (grid_size s) = Ok u
       /\ s' = {| grid_size := grid_size s;
                  probabilities := filled (grid_size s) u (probabilities s);
                  clamped := clamped s;
                  iteration := 0;
                  convergence_threshold := convergence_threshold s;
                  inhibition_strength := inhibition_strength s;
                  is_converged := false |}.
Proof.
  unfold initialize. intros H.
  destruct (Py.truediv_int 1%float (grid_size s)) as [u|] eqn:Hu; simpl in H; [|discriminate].
  destruct (Z_lt_le_dec (grid_size s) Py.index_limit) as [Hn|Hn].
  - split; [assumption|]. rewrite fill_uniform_ok in H by assumption. simpl in H.
    exists u. split; [reflexivity|]. inversion H. reflexivity.
  - rewrite fill_uniform_overflow in H by assumption. discriminate.
Qed.

Lemma set_clue_ok (s : NetworkSettling) (row col value : Z) :
  grid_size s < Py.index_limit ->
  1 <= value <= grid_size s ->
  set_clue s row col value
  = Ok {| grid_size := grid_size s;
          probabilities :=
            <[(row, col) := one_hot (grid_size s) (Z.to_nat (value - 1))]> (probabilities s);
          clamped := {[(row, col)]} ∪ clamped s;
          iteration := iteration s;
          convergence_threshold := convergence_threshold s;
          inhibition_strength := inhibition_strength s;
          is_converged := is_converged s |}.
Proof.
  intros Hn Hv. unfold set_clue.
  rewrite repeat_ok by (unfold Py.index_limit in *; lia). cbn [bind].
  rewrite setitem_in_range by (rewrite length_repeat; lia). reflexivity.
Qed.

Lemma setitem_length {A : Type} (l l' : list A) (i : Z) (x : A) :
  Py.setitem l i x = Ok l' -> length l' = length l.
Proof.
  unfold Py.setitem. destruct (Py.position l i); simpl; [|discriminate].
  intros E. inversion E. apply length_insert.
Qed.

Lemma set_clue_wf (s s' : NetworkSettling) (row col value : Z) :
  wf s -> set_clue s row col value = Ok s' -> wf s'.
Proof.
  intros [Hnz Hlim Hcells] H. apply set_clue_inv in H as (_ & probs & Hset & ->).
  split; simpl; [assumption | assumption |].
  intros rc Hrc. destruct (decide ((row, col) = rc)) as [<-|Hne].
  - exists probs. rewrite lookup_insert_eq. split; [reflexivity|].
    rewrite (setitem_length _ _ _ _ Hset). apply length_repeat.
  - rewrite lookup_insert_ne by assumption. apply Hcells, Hrc.
Qed.

Lemma remove_clue_ok (s : NetworkSettling) (row col : Z) (u : float) :
  - Py.index_limit <= grid_size s < Py.index_limit ->
  Py.truediv_int 1%float (grid_size s) = Ok u ->
  remove_clue s row col
  = Ok {| grid_size := grid_size s;
          probabilities := <[(row, col) := copies u (grid_size s)]> (probabilities s);
          clamped := clamped s ∖ {[(row, col)]};
          iteration := iteration s;
          convergence_threshold := convergence_threshold s;
          inhibition_strength := inhibition_strength s;
          is_converged := is_converged s |}.
Proof.
  intros Hn Hu. unfold remove_clue. rewrite Hu. cbn [bind].
  rewrite repeat_ok by assumption. reflexivity.
Qed.

Lemma remove_clue_wf (s s' : NetworkSettling) (row col : Z) :
  wf s -> remove_clue s row col = Ok s' -> wf s'.
Proof.
  intros Hwf H. destruct (uniform_ok s Hwf) as (u & Hu & _).
  rewrite (remove_clue_ok s row col u (wf_index s Hwf) Hu) in H. inversion H; subst; clear H.
  destruct Hwf as [Hnz Hlim Hcells]. split; simpl; [assumption | assumption |].
  intros rc Hrc. destruct (decide ((row, col) = rc)) as [<-|Hne].
  - rewrite lookup_insert_eq. eexists. split; [reflexivity | apply length_repeat].
  - rewrite lookup_insert_ne by assumption. apply Hcells, Hrc.
Qed.

Lemma initialize_wf (s s' : NetworkSettling) :
  - Py.index_limit <= grid_size s -> initialize s = Ok s' -> wf s'.
Proof.
  intros Hlim H. apply initialize_inv in H as (Hn & u & Hu & ->).
  apply truediv_int_nonzero in Hu as [Hnz _].
  split; simpl; [assumption | split; assumption |].
  intros rc Hrc. rewrite fill_uniform_in by exact Hrc.
  eexists. split; [reflexivity | apply length_repeat].
Qed.


Lemma reset_wf (s s' : NetworkSettling) : wf s -> reset s = Ok s' -> wf s'.
Proof. intros Hwf H. eapply initialize_wf; [|exact H]. simpl. apply Hwf. Qed.

Lemma set_inhibition_strength_wf (s : NetworkSettling) (strength : float) :
  wf s -> wf (set_inhibition_strength s strength).
Proof. intros [Hnz Hlim Hcells]. split; assumption. Qed.

(** Every call keeps the engine well formed. *)
Lemma exec_wf (s s' : NetworkSettling) (o : op) : wf s -> exec s o = Ok s' -> wf s'.
Proof.
  intros Hwf H. destruct o; simpl in H.
  - eapply initialize_wf; [apply Hwf | exact H].
  - eapply reset_wf; eassumption.
  - eapply set_clue_wf; eassumption.
  - eapply remove_clue_wf; eassumption.
  - inversion H. apply set_inhibition_strength_wf, Hwf.
  - destruct (step s) as [[mc s1]|] eqn:Hs; simpl in H; [|discriminate].
    inversion H; subst. eapply step_wf; eassumption.
Qed.

Lemma run_wf (ops : list op) (s s' : NetworkSettling) : wf s -> run s ops = Ok s' -> wf s'.
Proof.
  revert s. induction ops as [|o ops IH]; intros s Hwf H; unfold run in *; simpl in H.
  - congruence.
  - destruct (exec s o) as [s1|] eqn:Ho; simpl in H; [|discriminate].
    eapply IH; [eapply exec_wf; eassumption | exact H].
Qed.

End Clues.

(** * Calls that spare a clue *)

Section CluesKept.

(** [set_clue] with a value of the grid makes the cell a clue with that
    value. *)
Lemma set_clue_clamped_to (s s' : NetworkSettling) (row col value : Z) :
  1 <= value <= grid_size s -> set_clue s row col value = Ok s' ->
  probabilities s' !! (row, col) = Some (one_hot (grid_size s) (Z.to_nat (value - 1)))
  /\ clamped_to s' (row, col) value.
Proof.
  intros Hv H. pose proof (set_clue_inv _ _ _ _ _ H) as [[_ Hn] _].
  rewrite set_clue_ok in H by assumption. inversion H; subst; clear H.
  assert (Hp : <[(row, col) := one_hot (grid_size s) (Z.to_nat (value - 1))]>
                 (probabilities s) !! (row, col)
               = Some (one_hot (grid_size s) (Z.to_nat (value - 1))))
    by apply lookup_insert_eq.
  split; [exact Hp|]. split; [simpl; apply elem_of_union_l, elem_of_singleton; reflexivity|].
  exists 1%float. simpl.
  rewrite (get_most_likely_value_one_hot _ row col (Z.to_nat (value - 1)));
    [f_equal; f_equal; lia | simpl; lia | exact Hp].
Qed.

(** A call that spares the clue in a cell of the grid leaves its
    distribution and keeps it clamped. *)
Lemma exec_spares_clue (s s' : NetworkSettling) (o : op) (rc : cell) :
  wf s -> in_grid s rc -> rc ∈ clamped s -> spares rc o = true -> exec s o = Ok s' ->
  probabilities s' !! rc = probabilities s !! rc /\ rc ∈ clamped s' /\ in_grid s' rc.
Proof.
  intros Hwf Hin Hcl Hsp H. destruct o; simpl in *; try discriminate.
  - apply negb_true_iff, bool_decide_eq_false in Hsp.
    apply set_clue_inv in H as (_ & probs & _ & ->). simpl.
    split; [apply lookup_insert_ne; assumption|]. split; [set_solver | exact Hin].
  - apply negb_true_iff, bool_decide_eq_false in Hsp.
    apply remove_clue_inv in H as (_ & u & _ & ->). simpl.
    split; [apply lookup_insert_ne; assumption|]. split; [set_solver | exact Hin].
  - inversion H; subst; clear H. simpl. auto.
  - destruct (step s) as [[mc s1]|] eqn:Hstep; simpl in H; [|discriminate].
    inversion H; subst; clear H. eapply step_clamped; eassumption.
Qed.

Lemma run_spares_clue (ops : list op) (s s' : NetworkSettling) (rc : cell) :
  wf s -> in_grid s rc -> rc ∈ clamped s ->
  forallb (spares rc) ops = true -> run s ops = Ok s' ->
  probabilities s' !! rc = probabilities s !! rc /\ rc ∈ clamped s'.
Proof.
  revert s. induction ops as [|o ops IH]; intros s Hwf Hin Hcl Hsp H;
    unfold run in *; simpl in *.
  - inversion H; subst. auto.
  - apply andb_prop in Hsp as [Ho Hops].
    destruct (exec s o) as [s1|] eqn:Hexec; simpl in H; [|discriminate].
    destruct (exec_spares_clue s s1 o rc Hwf Hin Hcl Ho Hexec) as (Hp & Hcl1 & Hin1).
    destruct (IH s1 (exec_wf _ _ _ Hwf Hexec) Hin1 Hcl1 Hops H) as [Hp' Hcl'].
    split; [congruence | assumption].
Qed.

End CluesKept.

(** * What no call changes *)

Section Reset.

(** No call changes the size of the grid or the convergence threshold. *)
Lemma exec_keeps_parameters (s s' : NetworkSettling) (o : op) :
  exec s o = Ok s' ->
  grid_size s' = grid_size s /\ convergence_threshold s' = convergence_threshold s.
Proof.
  intros H. destruct o; simpl in H.
  - apply initialize_inv in H as (_ & u & _ & ->). auto.
  - unfold reset in H. apply initialize_inv in H as (_ & u & _ & ->). auto.
  - apply set_clue_inv in H as (_ & probs & _ & ->). auto.
  - apply remove_clue_inv in H as (_ & u & _ & ->). auto.
  - inversion H; subst. auto.
  - unfold step in H. destruct (is_converged s).
    + simpl in H. inversion H; subst. auto.
    + destruct (step_loop s) as [[d mc]|]; simpl in H; [|discriminate].
      inversion H; subst. auto.
Qed.

Lemma run_keeps_parameters (ops : list op) (s s' : NetworkSettling) :
  run s ops = Ok s' ->
  grid_size s' = grid_size s /\ convergence_threshold s' = convergence_threshold s.
Proof.
  revert s. induction ops as [|o ops IH]; intros s H; unfold run in *; simpl in H.
  - inversion H; subst. auto.
  - destruct (exec s o) as [s1|] eqn:Ho; simpl in H; [|discriminate].
    destruct (exec_keeps_parameters _ _ _ Ho) as [E1 E2].
    destruct (IH s1 H) as [E3 E4]. split; congruence.
Qed.

End Reset.

(** * A clue makes its value impossible *)

Section Impossible.

Context (s : NetworkSettling) (Hwf : wf s).

(** A clue in the row or the column of a cell makes its value impossible
    for that cell. *)
Lemma clue_makes_impossible (a b : cell) (value : Z) :
  in_grid s a -> in_grid s b -> a <> b -> a.1 = b.1 \/ a.2 = b.2 ->
  clamped_to s a value ->
  1 <= value <= grid_size s /\ is_value_impossible s b.1 b.2 (value - 1) = Ok true.
Proof.
  intros Ha Hb Hne Hline [Hcl [p Hv]].
  destruct (get_most_likely_value_wf s a Hwf Ha) as (v & m & Hv' & Hrange).
  assert (v = value) by congruence. subst v. split; [assumption|].
  destruct a as [ra ca]. destruct b as [rb cb]. simpl in *.
  unfold is_value_impossible. replace (value - 1 + 1) with value by lia.
  destruct Ha as [Har Hac]. simpl in *.
  destruct (clamped_elsewhere_ok s Hwf (fun c => (rb, c)) cb value (Py.range (grid_size s)))
    as [in_row Hrow]; [eauto using row_in_grid|].
  destruct (decide (ra = rb)) as [->|Hr].
  - rewrite (clamped_elsewhere_found s Hwf (fun c => (rb, c)) cb value _ ca p);
      [reflexivity | eauto using row_in_grid | apply elem_of_range; assumption
      | congruence | assumption | assumption].
  - destruct Hline as [E|E]; [contradiction|]. subst ca.
    rewrite Hrow. simpl. destruct in_row; [reflexivity|].
    apply (clamped_elsewhere_found s Hwf (fun r => (r, cb)) rb value _ ra p);
      [eauto using col_in_grid | apply elem_of_range; assumption
      | assumption | assumption | assumption].
Qed.

End Impossible.

(** * Comparisons and division of binary64 numbers *)

Section Floats.

(** Zero divided by a positive number is the positive zero. *)
Lemma zero_div_pos (t : float) : (0 <? t)%float = true -> (0 / t)%float = 0%float.
Proof.
  intros H. rewrite ltb_spec in H. apply Prim2SF_inj. rewrite div_spec.
  change (Prim2SF 0) with (S754_zero false) in *.
  destruct (Prim2SF t) as [sg|sg| |sg m e]; simpl in *; try discriminate;
    destruct sg; simpl in *; try discriminate; reflexivity.
Qed.

Lemma pos_not_zero (t : float) : (0 <? t)%float = true -> (t =? 0)%float = false.
Proof.
  intros H. rewrite ltb_spec in H. rewrite FloatAxioms.eqb_spec.
  change (Prim2SF 0) with (S754_zero false) in *.
  destruct (Prim2SF t) as [sg|sg| |sg m e]; simpl in *; try discriminate;
    destruct sg; simpl in *; try discriminate; reflexivity.
Qed.

End Floats.

Section FloatOrder.

Lemma SFcompare_antisym (x y : spec_float) :
  SFcompare y x = option_map CompOpp (SFcompare x y).
Proof.
  destruct x as [sx|sx| |sx mx ex], y as [sy|sy| |sy my ey]; simpl; try reflexivity;
    try (destruct sx; reflexivity); try (destruct sy; reflexivity);
    try (destruct sx, sy; reflexivity).
  destruct sx, sy; simpl; try reflexivity; f_equal;
    rewrite (Z.compare_antisym ex ey); destruct (ex ?= ey) eqn:E; simpl; try reflexivity;
    change (Pos.compare_cont Eq my mx) with (Pos.compare my mx);
    change (Pos.compare_cont Eq mx my) with (Pos.compare mx my);
    rewrite (Pos.compare_antisym mx my); destruct (mx ?= my)%positive; reflexivity.
Qed.

Lemma not_nan_spec (x : float) : is_nan x = false -> Prim2SF x <> S754_nan.
Proof.
  unfold is_nan. rewrite FloatAxioms.eqb_spec. intros H E. rewrite E in H. discriminate.
Qed.

(** On numbers, "not below" is "at least". *)
Lemma not_ltb_leb (x y : float) :
  is_nan x = false -> is_nan y = false ->
  ((x <? y)%float = false <-> (y <=? x)%float = true).
Proof.
  intros Hx Hy. apply not_nan_spec in Hx, Hy.
  rewrite ltb_spec, leb_spec. unfold SFltb, SFleb.
  rewrite (SFcompare_antisym (Prim2SF x) (Prim2SF y)).
  destruct (SFcompare (Prim2SF x) (Prim2SF y)) as [[| |]|] eqn:E; simpl;
    try (split; [reflexivity | reflexivity]); try (split; discriminate).
  exfalso. destruct (Prim2SF x) as [sx|sx| |sx mx ex], (Prim2SF y) as [sy|sy| |sy my ey];
    simpl in E; try discriminate; congruence.
Qed.

End FloatOrder.

Section FloatRank.

Lemma SFcompare_rank (x y : spec_float) :
  x <> S754_nan -> y <> S754_nan ->
  exists c, SFcompare x y = Some c
            /\ (c = Lt <-> rank_lt (rank x) (rank y))
            /\ (c = Eq <-> rank x = rank y)
            /\ (c = Gt <-> rank_lt (rank y) (rank x)).
Proof.
  intros Hx Hy. unfold rank_lt.
  destruct x as [sx|sx| |sx mx ex]; [| |congruence|];
  destruct y as [sy|sy| |sy my ey]; try congruence; simpl;
  try (destruct sx); try (destruct sy); simpl;
  try (eexists; split; [reflexivity|]; simpl;
       repeat split; intros; try discriminate; try reflexivity; try lia;
       try (exfalso; congruence); fail).
  - (* both negative *)
    eexists. split; [reflexivity|].
    change (Pos.compare_cont Eq mx my) with (Pos.compare mx my).
    pose proof (Z.compare_spec ex ey) as He. pose proof (Pos.compare_spec mx my) as Hm.
    destruct He; [destruct Hm|..]; simpl; subst;
      repeat split; intros; try discriminate; try reflexivity; try lia;
      try (exfalso; congruence); try (f_equal; lia);
      match goal with H : (_, _, _) = (_, _, _) |- _ => inversion H; lia end.
  - (* both positive *)
    eexists. split; [reflexivity|].
    change (Pos.compare_cont Eq mx my) with (Pos.compare mx my).
    pose proof (Z.compare_spec ex ey) as He. pose proof (Pos.compare_spec mx my) as Hm.
    destruct He; [destruct Hm|..]; simpl; subst;
      repeat split; intros; try discriminate; try reflexivity; try lia;
      try (exfalso; congruence); try (f_equal; lia);
      match goal with H : (_, _, _) = (_, _, _) |- _ => inversion H; lia end.
Qed.

End FloatRank.

Section FloatCompare.

Context (x y : float) (Hx : is_nan x = false) (Hy : is_nan y = false).

Lemma ltb_rank : (x <? y)%float = true <-> rank_lt (rank (Prim2SF x)) (rank (Prim2SF y)).
Proof.
  rewrite ltb_spec. unfold SFltb.
  destruct (SFcompare_rank (Prim2SF x) (Prim2SF y)) as (c & -> & Hlt & _);
    [apply not_nan_spec, Hx | apply not_nan_spec, Hy |].
  rewrite <- Hlt. destruct c; split; congruence.
Qed.


Lemma leb_rank : (x <=? y)%float = true <-> ~ rank_lt (rank (Prim2SF y)) (rank (Prim2SF x)).
Proof.
  rewrite leb_spec. unfold SFleb.
  destruct (SFcompare_rank (Prim2SF x) (Prim2SF y)) as (c & -> & _ & _ & Hgt);
    [apply not_nan_spec, Hx | apply not_nan_spec, Hy |].
  rewrite <- Hgt. destruct c; split; congruence.
Qed.

End FloatCompare.

Ltac rank_order :=
  unfold rank_lt in *;
  repeat match goal with
         | r : (Z * Z * Z)%type |- _ => destruct r as [[? ?] ?]
         end;
  simpl in *; lia.

Section FloatTransitivity.


Lemma ltb_leb (x y : float) :
  is_nan x = false -> is_nan y = false -> (x <? y)%float = true -> (x <=? y)%float = true.
Proof.
  intros Hx Hy H. apply (ltb_rank x y Hx Hy) in H. apply (leb_rank x y Hx Hy).
  revert H. generalize (rank (Prim2SF x)) (rank (Prim2SF y)). intros r1 r2 H. rank_order.
Qed.


Lemma ltb_leb_trans (x y z : float) :
  is_nan x = false -> is_nan y = false -> is_nan z = false ->
  (x <? y)%float = true -> (y <=? z)%float = true -> (x <? z)%float = true.
Proof.
  intros Hx Hy Hz H1 H2. apply (ltb_rank x y Hx Hy) in H1. apply (leb_rank y z Hy Hz) in H2.
  apply (ltb_rank x z Hx Hz). revert H1 H2.
  generalize (rank (Prim2SF x)) (rank (Prim2SF y)) (rank (Prim2SF z)). intros r1 r2 r3 H1 H2.
  rank_order.
Qed.

Lemma leb_trans (x y z : float) :
  is_nan x = false -> is_nan y = false -> is_nan z = false ->
  (x <=? y)%float = true -> (y <=? z)%float = true -> (x <=? z)%float = true.
Proof.
  intros Hx Hy Hz H1 H2. apply (leb_rank x y Hx Hy) in H1. apply (leb_rank y z Hy Hz) in H2.
  apply (leb_rank x z Hx Hz). revert H1 H2.
  generalize (rank (Prim2SF x)) (rank (Prim2SF y)) (rank (Prim2SF z)). intros r1 r2 r3 H1 H2.
  rank_order.
Qed.


End FloatTransitivity.

(** * The first maximum of a distribution *)

Section FirstMaximum.





End FirstMaximum.

(** * Validity, as the specification words it *)

Section Validity.

Context (s : NetworkSettling) (Hwf : wf s).
Context (Hnum : forall rc, in_grid s rc -> is_nan (most_likely_probability s rc) = false).

Lemma confidence_not_nan : is_nan confidence = false.
Proof. reflexivity. Qed.

(** The inner loop runs to its end exactly when the values of the line are
    distinct from each other and from those seen before, and, in the row
    pass, every probability is at least 0.9. *)
Lemma line_distinct_spec (confident : bool) (cells : list cell) (values : gset Z) :
  (forall rc, rc ∈ cells -> in_grid s rc) ->
  exists ok,
    line_distinct s confident values cells = Ok ok
    /\ (ok = true <->
        NoDup (most_likely_value s <$> cells)
        /\ (forall rc, rc ∈ cells -> most_likely_value s rc ∉ values)
        /\ (confident = true ->
            Forall (fun rc => (confidence <=? most_likely_probability s rc)%float = true)
                   cells)).
Proof.
  revert values. induction cells as [|rc cells IH]; intros values Hcells.
  - exists true. split; [reflexivity|]. split; [|reflexivity]. intros _.
    split; [constructor|]. split; [intros rc Hrc; inversion Hrc | constructor].
  - assert (Hin : in_grid s rc) by (apply Hcells; left).
    assert (Hcells' : forall rc', rc' ∈ cells -> in_grid s rc')
      by (intros rc' Hrc'; apply Hcells; right; exact Hrc').
    destruct (get_most_likely_value_wf s rc Hwf Hin) as (v & p & Hv & _).
    assert (Hmv : most_likely_value s rc = v) by (unfold most_likely_value; rewrite Hv; reflexivity).
    assert (Hmp : most_likely_probability s rc = p)
      by (unfold most_likely_probability; rewrite Hv; reflexivity).
    pose proof (Hnum rc Hin) as Hp. rewrite Hmp in Hp.
    pose proof (not_ltb_leb p confidence Hp confidence_not_nan) as Hcmp.
    cbn [line_distinct]. rewrite Hv. cbn [bind].
    destruct (confident && (p <? confidence)%float) eqn:Hconf.
    { exists false. split; [reflexivity|]. split; [discriminate|].
      intros (_ & _ & Hall). apply andb_prop in Hconf as [-> Hlt].
      specialize (Hall eq_refl). apply Forall_cons in Hall as [Hge _].
      rewrite Hmp in Hge. apply Hcmp in Hge. congruence. }
    case_bool_decide as Hseen.
    { exists false. split; [reflexivity|]. split; [discriminate|].
      intros (_ & Hfresh & _). exfalso. apply (Hfresh rc); [left | congruence]. }
    destruct (IH ({[v]} ∪ values) Hcells') as (ok & -> & Hok).
    exists ok. split; [reflexivity|]. rewrite Hok. clear Hok IH.
    rewrite fmap_cons, NoDup_cons, Hmv. split.
    + intros (Hnd & Hfresh & Hall). split; [split; [|assumption]|split].
      * intros Hv'. apply list_elem_of_fmap in Hv' as (rc' & Hrc' & Hin').
        apply (Hfresh rc' Hin'). rewrite <- Hrc'. apply elem_of_union_l, elem_of_singleton.
        reflexivity.
      * intros rc' Hrc'. apply elem_of_cons in Hrc' as [->|Hrc'].
        -- rewrite Hmv. assumption.
        -- intros E. apply (Hfresh rc' Hrc'), elem_of_union_r, E.
      * intros Hc. constructor; [|apply Hall, Hc].
        rewrite Hmp. apply Hcmp. rewrite Hc in Hconf. simpl in Hconf. exact Hconf.
    + intros ([Hv' Hnd] & Hfresh & Hall). split; [assumption|]. split.
      * intros rc' Hrc'. apply not_elem_of_union. split.
        -- intros E. apply elem_of_singleton in E. apply Hv'.
           apply list_elem_of_fmap. exists rc'. auto.
        -- apply Hfresh. right. exact Hrc'.
      * intros Hc. specialize (Hall Hc). apply Forall_cons in Hall as [_ Hall]. exact Hall.
Qed.

(** The outer loop returns true exactly when every inner loop runs to its
    end. *)
Lemma all_lines_spec (line : Z -> res bool) (P : Z -> Prop) (l : list Z) :
  (forall k, k ∈ l -> exists ok, line k = Ok ok /\ (ok = true <-> P k)) ->
  exists ok, all_lines line l = Ok ok /\ (ok = true <-> forall k, k ∈ l -> P k).
Proof.
  induction l as [|k l IH]; intros Hl; simpl.
  - exists true. split; [reflexivity|]. split; [|reflexivity]. intros _ k Hk. inversion Hk.
  - destruct (Hl k) as (ok & -> & Hok); [left|]. simpl.
    destruct IH as (ok' & IH & Hok'); [intros k' Hk'; apply Hl; right; exact Hk'|].
    destruct ok.
    + exists ok'. split; [assumption|]. rewrite Hok'. split.
      * intros H k' Hk'. apply elem_of_cons in Hk' as [->|Hk']; [apply Hok; reflexivity|auto].
      * intros H k' Hk'. apply H. right. exact Hk'.
    + exists false. split; [reflexivity|]. split; [discriminate|].
      intros H. apply Hok, H. left.
Qed.

Lemma row_cells_in_grid (row : Z) (rc : cell) :
  0 <= row < grid_size s -> rc ∈ row_cells s row -> in_grid s rc.
Proof.
  intros Hrow Hrc. apply list_elem_of_fmap in Hrc as (c & -> & Hc).
  apply elem_of_range in Hc. split; assumption.
Qed.

Lemma col_cells_in_grid (col : Z) (rc : cell) :
  0 <= col < grid_size s -> rc ∈ col_cells s col -> in_grid s rc.
Proof.
  intros Hcol Hrc. apply list_elem_of_fmap in Hrc as (r & -> & Hr).
  apply elem_of_range in Hr. split; assumption.
Qed.

Lemma is_valid_solution_refines :
  exists ok, is_valid_solution s = Ok ok /\ (ok = true <-> lines_valid s).
Proof.
  unfold is_valid_solution, lines_valid.
  destruct (all_lines_spec (fun row => line_distinct s true ∅ (row_cells s row))
              (fun row => NoDup (most_likely_value s <$> row_cells s row)
                          /\ Forall (fun rc => (confidence <=? most_likely_probability s rc)%float = true)
                                    (row_cells s row))
              (Py.range (grid_size s))) as (rows & -> & Hrows).
  { intros row Hrow. apply elem_of_range in Hrow.
    destruct (line_distinct_spec true (row_cells s row) ∅) as (ok & Hok & Hiff);
      [intros rc; apply row_cells_in_grid; assumption|].
    exists ok. split; [assumption|]. rewrite Hiff. split.
    - intros (Hnd & _ & Hall). auto.
    - intros [Hnd Hall]. split; [assumption|]. split; [|auto]. intros rc _. apply not_elem_of_empty. }
  destruct (all_lines_spec (fun col => line_distinct s false ∅ (col_cells s col))
              (fun col => NoDup (most_likely_value s <$> col_cells s col))
              (Py.range (grid_size s))) as (cols & Hcols & Hcols_iff).
  { intros col Hcol. apply elem_of_range in Hcol.
    destruct (line_distinct_spec false (col_cells s col) ∅) as (ok & Hok & Hiff);
      [intros rc; apply col_cells_in_grid; assumption|].
    exists ok. split; [assumption|]. rewrite Hiff. split.
    - intros (Hnd & _ & _). assumption.
    - intros Hnd. split; [assumption|]. split; [|discriminate]. intros rc _. apply not_elem_of_empty. }
  cbn [bind]. destruct rows.
  - exists cols. split; [assumption|]. rewrite Hcols_iff. split.
    + intros Hc. split.
      * intros row Hrow. apply Hrows; [reflexivity | apply elem_of_range, Hrow].
      * intros col Hcol. apply Hc, elem_of_range, Hcol.
    + intros [_ Hc] col Hcol. apply Hc, elem_of_range, Hcol.
  - exists false. split; [reflexivity|]. split; [discriminate|].
    intros [Hr _]. apply Hrows. intros row Hrow. apply Hr, elem_of_range, Hrow.
Qed.

End Validity.

(** The lists the passes go through are the rows and the columns of the
    grid, each cell once. *)
Section Lines.

Lemma NoDup_fmap_range {B : Type} (h : Z -> B) (n : Z) :
  NoDup (h <$> Py.range n)
  <-> forall i j, 0 <= i < n -> 0 <= j < n -> i <> j -> h i <> h j.
Proof.
  split.
  - intros Hnd i j Hi Hj Hne E. apply Hne.
    assert (Hat : forall k, 0 <= k < n -> Py.range n !! Z.to_nat k = Some k).
    { intros k Hk. unfold Py.range. rewrite list_lookup_fmap, lookup_seq_lt by lia.
      simpl. f_equal. lia. }
    assert (Z.to_nat i = Z.to_nat j); [|lia].
    apply (NoDup_lookup _ _ _ (h i) Hnd);
      rewrite list_lookup_fmap, Hat by assumption; simpl; congruence.
  - intros Hinj. apply NoDup_fmap_2_strong; [|apply NoDup_range].
    intros i j Hi Hj E. apply elem_of_range in Hi, Hj.
    destruct (decide (i = j)) as [|Hne]; [assumption|].
    exfalso. exact (Hinj i j Hi Hj Hne E).
Qed.

Lemma lines_valid_iff (s : NetworkSettling) : lines_valid s <-> valid_solution_spec s.
Proof.
  unfold lines_valid, valid_solution_spec, row_cells, col_cells. cbv zeta.
  assert (Hrow : forall row,
            NoDup (most_likely_value s <$> ((fun col => (row, col)) <$> Py.range (grid_size s)))
            <-> forall col1 col2, 0 <= col1 < grid_size s -> 0 <= col2 < grid_size s ->
                  col1 <> col2 ->
                  most_likely_value s (row, col1) <> most_likely_value s (row, col2)).
  { intros row. rewrite <- list_fmap_compose. apply NoDup_fmap_range. }
  assert (Hcol : forall col,
            NoDup (most_likely_value s <$> ((fun row => (row, col)) <$> Py.range (grid_size s)))
            <-> forall row1 row2, 0 <= row1 < grid_size s -> 0 <= row2 < grid_size s ->
                  row1 <> row2 ->
                  most_likely_value s (row1, col) <> most_likely_value s (row2, col)).
  { intros col. rewrite <- list_fmap_compose. apply NoDup_fmap_range. }
  assert (Hconf : forall row,
            Forall (fun rc => (confidence <=? most_likely_probability s rc)%float = true)
                   ((fun col => (row, col)) <$> Py.range (grid_size s))
            <-> forall col, 0 <= col < grid_size s ->
                  (confidence <=? most_likely_probability s (row, col))%float = true).
  { intros row. rewrite Forall_fmap, Forall_forall. split.
    - intros H col Hc. apply (H col), elem_of_range, Hc.
    - intros H col Hc. apply H, elem_of_range, Hc. }
  split.
  - intros [Hrows Hcols]. split.
    + intros row Hr. destruct (Hrows row Hr) as [Hnd Hall].
      split; [apply Hrow, Hnd | apply Hconf, Hall].
    + intros col Hc. apply Hcol, Hcols, Hc.
  - intros [Hrows Hcols]. split.
    + intros row Hr. destruct (Hrows row Hr) as [Hnd Hall].
      split; [apply Hrow, Hnd | apply Hconf, Hall].
    + intros col Hc. apply Hcol, Hcols, Hc.
Qed.

End Lines.




(** * The claims *)

(** C1, as the code has it: on a cell that is not clamped, [remove_clue]
    raises nothing and leaves the clamped set, the counter, the flag, the
    threshold, the inhibition strength and every other cell as they are,
    but it stores the uniform distribution in the cell; the engine is
    unchanged exactly when the cell was uniform already. *)
Theorem remove_clue_unclamped (s : NetworkSettling) (row col : Z) :
  wf s -> (row, col) ∉ clamped s ->
  exists u,
    uniform s = Ok u
    /\ remove_clue s row col
       = Ok {| grid_size := grid_size s;
               probabilities := <[(row, col) := u]> (probabilities s);
               clamped := clamped s;
               iteration := iteration s;
               convergence_threshold := convergence_threshold s;
               inhibition_strength := inhibition_strength s;
               is_converged := is_converged s |}
    /\ (remove_clue s row col = Ok s <-> probabilities s !! (row, col) = Some u).
Proof.
  intros Hwf Hcl. destruct (uniform_ok s Hwf) as (u & Hu & Hunif).
  exists (copies u (grid_size s)). split; [assumption|].
  rewrite (remove_clue_ok s row col u (wf_index s Hwf) Hu).
  rewrite (difference_disjoint_L (clamped s) {[(row, col)]})
    by (apply disjoint_singleton_r; exact Hcl).
  split; [reflexivity|]. split.
  - intros E. inversion E as [E']. rewrite <- E' at 1. simpl. apply lookup_insert_eq.
  - intros Hp. rewrite insert_id by assumption. destruct s; reflexivity.
Qed.

Lemma remove_clue_unclamped_witness :
  wf stepped_2x2 /\ ((0, 1) ∉ clamped stepped_2x2)
  /\ exists u,
       uniform stepped_2x2 = Ok u
       /\ remove_clue stepped_2x2 0 1
          = Ok {| grid_size := grid_size stepped_2x2;
                  probabilities := <[(0, 1) := u]> (probabilities stepped_2x2);
                  clamped := clamped stepped_2x2;
                  iteration := iteration stepped_2x2;
                  convergence_threshold := convergence_threshold stepped_2x2;
                  inhibition_strength := inhibition_strength stepped_2x2;
                  is_converged := is_converged stepped_2x2 |}
       /\ (remove_clue stepped_2x2 0 1 = Ok stepped_2x2
           <-> probabilities stepped_2x2 !! (0, 1) = Some u).
Proof.
  assert (Hwf : wf stepped_2x2) by (apply wf_check_sound; vm_compute; reflexivity).
  assert (Hcl : (0, 1) ∉ clamped stepped_2x2)
    by (apply (bool_decide_unpack _); vm_compute; exact I).
  split; [exact Hwf|]. split; [exact Hcl|].
  apply (remove_clue_unclamped stepped_2x2 0 1 Hwf Hcl).
Defined.

(** C1, as stated, fails: after a round has moved the cell (0,1) of a 2x2
    engine away from uniform, [remove_clue(0, 1)] on that cell, which is not
    clamped, changes the engine. *)
Lemma remove_clue_unclamped_changes_state :
  wf stepped_2x2 /\ ((0, 1) ∉ clamped stepped_2x2)
  /\ probabilities stepped_2x2 !! (0, 1) = Some [0%float; 1%float]
  /\ exists s', remove_clue stepped_2x2 0 1 = Ok s'
                /\ probabilities s' !! (0, 1) = Some [0.5%float; 0.5%float]
                /\ s' <> stepped_2x2.
Proof.
  split; [apply wf_check_sound; vm_compute; reflexivity|].
  split; [apply (bool_decide_unpack _); vm_compute; exact I|].
  split; [vm_compute; reflexivity|].
  eexists. split; [vm_compute; reflexivity|]. split; [vm_compute; reflexivity|].
  intros E.
  apply (f_equal (fun s => match probabilities s !! (0, 1) with
                           | Some (x :: _) => (x =? 0)%float
                           | _ => false
                           end)) in E.
  vm_compute in E. discriminate.
Qed.

(** C2, as the code has it: after any calls on an engine built with
    [grid_size = n], [reset] returns an engine with the size [n], the
    default threshold, an empty clamped set, the counter 0, the flag off and
    the fresh engine's uniform distribution in every cell of the grid.  It
    leaves the inhibition strength as it was, and leaves the distributions
    stored for coordinates outside the grid in place; the engine equals the
    fresh one when the strength is the default and nothing is stored outside
    the grid. *)
Theorem reset_restores_grid (n : Z) (fresh s : NetworkSettling) (ops : list op) :
  new n = Ok fresh -> run fresh ops = Ok s ->
  exists s',
    reset s = Ok s'
    /\ grid_size s' = n
    /\ convergence_threshold s' = default_threshold
    /\ clamped s' = ∅
    /\ iteration s' = 0
    /\ is_converged s' = false
    /\ (forall rc, in_grid s rc -> probabilities s' !! rc = probabilities fresh !! rc)
    /\ inhibition_strength s' = inhibition_strength s
    /\ (forall rc, ~ in_grid s rc -> probabilities s' !! rc = probabilities s !! rc)
    /\ (inhibition_strength s = default_inhibition ->
        (forall rc, ~ in_grid s rc -> probabilities s !! rc = None) ->
        s' = fresh).
Proof.
  intros Hnew Hrun. destruct (run_keeps_parameters ops fresh s Hrun) as [Hn Hthr].
  rewrite new_blank in Hnew. apply initialize_inv in Hnew as (Hlim & u & Hu & ->). simpl in *.
  unfold reset. rewrite (initialize_ok _ u) by (simpl; rewrite Hn; assumption).
  simpl. rewrite Hn.
  eexists. split; [reflexivity|]. simpl.
  assert (Hin : forall rc, in_grid s rc ->
            filled n u (probabilities s) !! rc = filled n u ∅ !! rc).
  { intros rc Hrc. unfold in_grid in Hrc. rewrite Hn in Hrc.
    rewrite !fill_uniform_in by exact Hrc. reflexivity. }
  assert (Hout : forall rc, ~ in_grid s rc ->
            filled n u (probabilities s) !! rc = probabilities s !! rc).
  { intros rc Hrc. unfold in_grid in Hrc. rewrite Hn in Hrc.
    apply fill_uniform_out. exact Hrc. }
  repeat (split; [first [reflexivity | assumption]|]).
  intros Hinh Hnone. rewrite Hthr, Hinh. f_equal.
  apply map_eq. intros rc. destruct (decide (in_grid s rc)) as [Hrc|Hrc].
  - apply Hin, Hrc.
  - rewrite Hout, Hnone by assumption. unfold in_grid in Hrc. rewrite Hn in Hrc.
    rewrite fill_uniform_out by exact Hrc. symmetry. apply lookup_empty.
Qed.

Lemma reset_restores_grid_witness :
  exists s',
    reset strong_2x2 = Ok s'
    /\ grid_size s' = 2
    /\ convergence_threshold s' = default_threshold
    /\ clamped s' = ∅
    /\ iteration s' = 0
    /\ is_converged s' = false
    /\ (forall rc, in_grid strong_2x2 rc ->
                   probabilities s' !! rc = probabilities (state_of (new 2)) !! rc)
    /\ inhibition_strength s' = inhibition_strength strong_2x2
    /\ (forall rc, ~ in_grid strong_2x2 rc ->
                   probabilities s' !! rc = probabilities strong_2x2 !! rc)
    /\ (inhibition_strength strong_2x2 = default_inhibition ->
        (forall rc, ~ in_grid strong_2x2 rc -> probabilities strong_2x2 !! rc = None) ->
        s' = state_of (new 2)).
Proof.
  apply (reset_restores_grid 2 (state_of (new 2)) strong_2x2 [OpSetInhibition 1%float]).
  - vm_compute. reflexivity.
  - vm_compute. reflexivity.
Defined.

(** C2, as stated, fails: [reset] does not put the inhibition strength back.
    After [set_inhibition_strength(1.0)] on a fresh 2x2 engine, [reset]
    returns an engine whose strength is 1.0, not the 0.5 of a fresh one. *)
Lemma reset_keeps_inhibition_strength :
  exists fresh s',
    new 2 = Ok fresh
    /\ run fresh [OpSetInhibition 1%float] = Ok strong_2x2
    /\ reset strong_2x2 = Ok s'
    /\ inhibition_strength s' = 1%float
    /\ inhibition_strength fresh = 0.5%float
    /\ s' <> fresh.
Proof.
  eexists _, _. split; [vm_compute; reflexivity|].
  split; [vm_compute; reflexivity|]. split; [vm_compute; reflexivity|].
  split; [vm_compute; reflexivity|]. split; [vm_compute; reflexivity|].
  intros E. apply (f_equal (fun s => (inhibition_strength s =? 1)%float)) in E.
  vm_compute in E. discriminate.
Qed.

(** C3, as the code has it: in an engine that has not converged, let the
    cell [a] of the grid be a clue with value [value] and [b] another cell
    of the grid, not clamped, in the row or the column of [a].  Then [step]
    returns, and the distribution it stores for [b] has exactly 0.0 in the
    slot of [value] whenever the entries of [b] before normalisation have a
    positive sum.  When that sum is zero, [b] gets the uniform
    distribution instead. *)
Theorem clue_value_gets_zero (s : NetworkSettling) (a b : cell) (value : Z) :
  wf s -> is_converged s = false ->
  in_grid s a -> in_grid s b -> a <> b -> a.1 = b.1 \/ a.2 = b.2 ->
  clamped_to s a value -> b ∉ clamped s ->
  exists max_change s' new_probs probs,
    step s = Ok (max_change, s')
    /\ unnormalized s b.1 b.2 = Ok new_probs
    /\ probabilities s' !! b = Some probs
    /\ ((0 <? Py.sum new_probs)%float = true ->
        probs !! Z.to_nat (value - 1) = Some 0%float)
    /\ ((Py.sum new_probs =? 0)%float = true -> uniform s = Ok probs).
Proof.
  intros Hwf Hconv Ha Hb Hne Hline Hclue Hb_free.
  destruct (clue_makes_impossible s Hwf a b value Ha Hb Hne Hline Hclue) as [Hrange Himp].
  destruct (step_ok s Hwf Hconv) as (mc & s' & Hstep & _ & _ & _ & _ & _ & Hnext & _).
  specialize (Hnext b Hb). unfold next_probs in Hnext.
  rewrite bool_decide_eq_false_2 in Hnext by assumption.
  destruct b as [rb cb]. simpl in *.
  destruct (unnormalized_ok s Hwf rb cb Hb) as (np & Hnp & Hlen & Hzero).
  specialize (Hzero (value - 1) ltac:(lia) Himp).
  unfold calculate_new_probabilities in Hnext. rewrite Hnp in Hnext. simpl in Hnext.
  destruct (probabilities s' !! (rb, cb)) as [q|] eqn:Hq; simpl in Hnext; [|discriminate].
  exists mc, s', np, q. split; [assumption|]. split; [assumption|]. split; [assumption|].
  unfold normalize in Hnext. split.
  - intros Hpos. rewrite (pos_not_zero _ Hpos) in Hnext.
    assert (q = (fun p => (p / Py.sum np)%float) <$> np) by congruence. subst q.
    rewrite list_lookup_fmap, Hzero. simpl. f_equal. apply zero_div_pos, Hpos.
  - intros Hz. rewrite Hz in Hnext. unfold uniform.
    destruct (Py.truediv_int 1%float (grid_size s)); simpl in *; congruence.
Qed.

Lemma clue_value_gets_zero_witness :
  exists max_change s' new_probs probs,
    step clued_2x2 = Ok (max_change, s')
    /\ unnormalized clued_2x2 0 1 = Ok new_probs
    /\ probabilities s' !! (0, 1) = Some probs
    /\ ((0 <? Py.sum new_probs)%float = true ->
        probs !! Z.to_nat (1 - 1) = Some 0%float)
    /\ ((Py.sum new_probs =? 0)%float = true -> uniform clued_2x2 = Ok probs).
Proof.
  apply (clue_value_gets_zero clued_2x2 (0, 0) (0, 1) 1).
  - apply wf_check_sound. vm_compute. reflexivity.
  - vm_compute. reflexivity.
  - vm_compute. intuition discriminate.
  - vm_compute. intuition discriminate.
  - discriminate.
  - left. reflexivity.
  - split; [apply (bool_decide_unpack _); vm_compute; exact I|].
    exists 1%float. vm_compute. reflexivity.
  - apply (bool_decide_unpack _). vm_compute. exact I.
Defined.

(** C3, as stated, fails: in [boxed_2x2] the cell (0,0) is a clue with value
    1 and (0,1) is a cell of its row that is not clamped, yet after one
    round the slot of value 1 in (0,1) holds 0.5.  Both values are
    impossible for the cell, its entries sum to zero, and [normalize]
    falls back to the uniform distribution. *)
Lemma clue_value_not_zero_when_boxed :
  wf boxed_2x2 /\ is_converged boxed_2x2 = false
  /\ clamped_to boxed_2x2 (0, 0) 1 /\ ((0, 1) ∉ clamped boxed_2x2)
  /\ exists max_change s',
       step boxed_2x2 = Ok (max_change, s')
       /\ probabilities s' !! (0, 1) = Some [0.5%float; 0.5%float]
       /\ (0.5 =? 0)%float = false.
Proof.
  split; [apply wf_check_sound; vm_compute; reflexivity|].
  split; [vm_compute; reflexivity|].
  split; [split; [apply (bool_decide_unpack _); vm_compute; exact I
                 | exists 1%float; vm_compute; reflexivity]|].
  split; [apply (bool_decide_unpack _); vm_compute; exact I|].
  eexists _, _. split; [vm_compute; reflexivity|].
  split; vm_compute; reflexivity.
Qed.

(** C4: a clamped cell of the grid keeps its distribution, and stays
    clamped, through any number of [step] calls, which all return; other
    calls may come between them, as long as none of them is [reset],
    [initialize], or [set_clue] or [remove_clue] on the cell itself. *)
Theorem clamped_cell_is_invariant (s : NetworkSettling) (rc : cell) :
  wf s -> in_grid s rc -> rc ∈ clamped s ->
  (forall k, exists s',
      run s (replicate k OpStep) = Ok s'
      /\ probabilities s' !! rc = probabilities s !! rc
      /\ rc ∈ clamped s')
  /\ (forall ops s',
        forallb (spares rc) ops = true -> run s ops = Ok s' ->
        probabilities s' !! rc = probabilities s !! rc /\ rc ∈ clamped s').
Proof.
  intros Hwf Hin Hcl. split.
  - intros k. revert s Hwf Hin Hcl. induction k as [|k IH]; intros s Hwf Hin Hcl.
    + exists s. auto.
    + destruct (step_total s Hwf) as (mc & s1 & Hstep & Hwf1).
      destruct (step_clamped s mc s1 rc Hwf Hstep Hin Hcl) as (Hp & Hcl1 & Hin1).
      destruct (IH s1 Hwf1 Hin1 Hcl1) as (s' & Hrun & Hp' & Hcl').
      exists s'. unfold run in *. simpl. rewrite Hstep. simpl.
      split; [exact Hrun|]. split; [congruence | assumption].
  - intros ops s'. apply run_spares_clue; assumption.
Qed.

Lemma clamped_cell_is_invariant_witness :
  wf clued_2x2 /\ in_grid clued_2x2 (0, 0) /\ (0, 0) ∈ clamped clued_2x2
  /\ (forall k, exists s',
        run clued_2x2 (replicate k OpStep) = Ok s'
        /\ probabilities s' !! (0, 0) = probabilities clued_2x2 !! (0, 0)
        /\ (0, 0) ∈ clamped s')
  /\ (forall ops s',
        forallb (spares (0, 0)) ops = true -> run clued_2x2 ops = Ok s' ->
        probabilities s' !! (0, 0) = probabilities clued_2x2 !! (0, 0)
        /\ (0, 0) ∈ clamped s').
Proof.
  assert (Hwf : wf clued_2x2) by (apply wf_check_sound; vm_compute; reflexivity).
  assert (Hin : in_grid clued_2x2 (0, 0)) by (vm_compute; intuition discriminate).
  assert (Hcl : (0, 0) ∈ clamped clued_2x2)
    by (apply (bool_decide_unpack _); vm_compute; exact I).
  split; [exact Hwf|]. split; [exact Hin|]. split; [exact Hcl|].
  apply (clamped_cell_is_invariant clued_2x2 (0, 0) Hwf Hin Hcl).
Defined.

(** C6: once the convergence flag is set, [step] returns 0.0 and leaves the
    whole engine as it is, however often it is called; of the calls, only
    [reset] and [initialize] clear the flag. *)
Theorem converged_step_is_noop (s : NetworkSettling) :
  is_converged s = true ->
  step s = Ok (0%float, s)
  /\ (forall k, run s (replicate k OpStep) = Ok s)
  /\ (forall o s', clears_flag o = false -> exec s o = Ok s' -> is_converged s' = true).
Proof.
  intros Hconv. split; [apply step_converged, Hconv|]. split.
  - induction k as [|k IH]; [reflexivity|].
    unfold run in *. simpl. rewrite step_converged by assumption. simpl. exact IH.
  - intros o s' Hflag H. destruct o; simpl in *; try discriminate.
    + apply set_clue_inv in H as (_ & probs & _ & ->). exact Hconv.
    + apply remove_clue_inv in H as (_ & u & _ & ->). exact Hconv.
    + inversion H; subst. exact Hconv.
    + rewrite step_converged in H by assumption. simpl in H. inversion H; subst. exact Hconv.
Qed.

Lemma converged_step_is_noop_witness :
  is_converged settled_2x2 = true
  /\ step settled_2x2 = Ok (0%float, settled_2x2)
  /\ (forall k, run settled_2x2 (replicate k OpStep) = Ok settled_2x2)
  /\ (forall o s', clears_flag o = false -> exec settled_2x2 o = Ok s' -> is_converged s' = true).
Proof.
  split; [vm_compute; reflexivity|].
  apply (converged_step_is_noop settled_2x2). vm_compute. reflexivity.
Defined.

(** C7: on a fresh 4x4 engine with the clues 1 at (0,0) and 2 at (0,1), one
    round leaves the cells (0,2) and (0,3) with 0.0 in slots 0 and 1 and with
    two equal entries in slots 2 and 3 whose sum is 1.0. *)
Theorem scenario_4x4_round :
  exists fresh s1 max_change s' x y,
    new 4 = Ok fresh
    /\ set_clue fresh 0 0 1 = Ok s1
    /\ set_clue s1 0 1 2 = Ok scenario_4x4
    /\ step scenario_4x4 = Ok (max_change, s')
    /\ probabilities s' !! (0, 2) = Some [0%float; 0%float; x; x]
    /\ probabilities s' !! (0, 3) = Some [0%float; 0%float; y; y]
    /\ (x + x)%float = 1%float
    /\ (y + y)%float = 1%float.
Proof.
  eexists _, _, _, _, 0.5%float, 0.5%float.
  split; [vm_compute; reflexivity|].
  split; [vm_compute; reflexivity|].
  split; [vm_compute; reflexivity|].
  split; [vm_compute; reflexivity|].
  repeat split; vm_compute; reflexivity.
Qed.



(** C9: before [create_network] has run, every other adapter returns the
    object whose only field is ["error": "Network not initialized"], raises
    nothing, and leaves the global [None]. *)
Theorem adapters_before_creation (row col value : Z) (strength : float) :
  Api.not_initialized = JObj [("error", JStr "Network not initialized")]
  /\ Api.set_clue None row col value = Ok (Api.not_initialized, None)
  /\ Api.remove_clue None row col = Ok (Api.not_initialized, None)
  /\ Api.step None = Ok (Api.not_initialized, None)
  /\ Api.reset None = Ok (Api.not_initialized, None)
  /\ Api.set_inhibition None strength = Ok (Api.not_initialized, None)
  /\ Api.get_state None = Ok (Api.not_initialized, None).
Proof. repeat split. Qed.

(** C10: in a grid with a cell at all, and of a size a list can have,
    [set_clue(row, col, 0)] does not raise: the subscript [-1] writes the
    last slot, so the call does exactly what [set_clue(row, col, grid_size)]
    does; the cell is one-hot at the highest value and clamped. *)
Theorem set_clue_zero_is_highest_value (s : NetworkSettling) (row col : Z) :
  grid_size s < Py.index_limit -> in_grid s (row, col) ->
  exists s',
    set_clue s row col 0 = Ok s'
    /\ set_clue s row col (grid_size s) = Ok s'
    /\ probabilities s' !! (row, col)
       = Some (one_hot (grid_size s) (Z.to_nat (grid_size s - 1)))
    /\ get_most_likely_value s' row col = Ok (grid_size s, 1%float)
    /\ (row, col) ∈ clamped s'.
Proof.
  intros Hlim Hin. pose proof (in_grid_positive s _ Hin) as Hpos.
  assert (Hzero : set_clue s row col 0 = set_clue s row col (grid_size s)).
  { unfold set_clue. rewrite repeat_ok by (unfold Py.index_limit in *; lia). cbn [bind].
    change (0 - 1) with (-1).
    rewrite setitem_last; [rewrite length_repeat|].
    - replace (Z.of_nat (Z.to_nat (grid_size s)) - 1) with (grid_size s - 1) by lia.
      reflexivity.
    - intros E. apply (f_equal length) in E. rewrite length_repeat in E. simpl in E. lia. }
  rewrite Hzero, set_clue_ok by (first [assumption | lia]).
  eexists. split; [reflexivity|]. split; [reflexivity|]. simpl.
  split; [apply lookup_insert_eq|]. split; [|set_solver].
  rewrite (get_most_likely_value_one_hot _ row col (Z.to_nat (grid_size s - 1))).
  - f_equal. f_equal. lia.
  - simpl. lia.
  - simpl. apply lookup_insert_eq.
Qed.

Lemma set_clue_zero_is_highest_value_witness :
  grid_size (state_of (new 4)) < Py.index_limit
  /\ in_grid (state_of (new 4)) (1, 2)
  /\ exists s',
       set_clue (state_of (new 4)) 1 2 0 = Ok s'
       /\ set_clue (state_of (new 4)) 1 2 (grid_size (state_of (new 4))) = Ok s'
       /\ probabilities s' !! (1, 2)
          = Some (one_hot (grid_size (state_of (new 4)))
                    (Z.to_nat (grid_size (state_of (new 4)) - 1)))
       /\ get_most_likely_value s' 1 2 = Ok (grid_size (state_of (new 4)), 1%float)
       /\ (1, 2) ∈ clamped s'.
Proof.
  assert (Hlim : grid_size (state_of (new 4)) < Py.index_limit) by (vm_compute; reflexivity).
  assert (Hin : in_grid (state_of (new 4)) (1, 2)) by (vm_compute; intuition discriminate).
  split; [exact Hlim|]. split; [exact Hin|].
  apply (set_clue_zero_is_highest_value (state_of (new 4)) 1 2 Hlim Hin).
Defined.

(** * Further scenarios *)

(** The engine [solved_2x2] is a valid solution, and a fresh engine is
    not. *)
Example solved_2x2_valid : is_valid_solution solved_2x2 = Ok true.
Proof. vm_compute. reflexivity. Qed.

Example fresh_2x2_not_valid : is_valid_solution (state_of (new 2)) = Ok false.
Proof. vm_compute. reflexivity. Qed.

(** A clue entered after the engine has converged is not propagated: the
    flag stays set and [step] does nothing. *)
Example clue_after_convergence_is_ignored :
  exists s,
    set_clue settled_2x2 0 0 1 = Ok s
    /\ is_converged s = true
    /\ step s = Ok (0%float, s)
    /\ probabilities s !! (0, 1) = Some [0.5%float; 0.5%float].
Proof.
  eexists. split; [vm_compute; reflexivity|].
  split; [reflexivity|]. split; [reflexivity|]. vm_compute. reflexivity.
Qed.

(** A clue entered outside the grid is clamped, but the next round drops
    its distribution: [step] rebuilds the dictionary from the cells of the
    grid. *)
Example clue_outside_grid_is_dropped :
  exists s max_change s',
    set_clue (state_of (new 2)) 5 5 1 = Ok s
    /\ probabilities s !! (5, 5) = Some [1%float; 0%float]
    /\ step s = Ok (max_change, s')
    /\ probabilities s' !! (5, 5) = None
    /\ is_clamped s' 5 5 = true.
Proof.
  eexists _, _, _. split; [vm_compute; reflexivity|].
  split; [vm_compute; reflexivity|]. split; [vm_compute; reflexivity|].
  split; vm_compute; reflexivity.
Qed.

(** A distribution stored outside the grid survives [reset], which rewrites
    the cells of the grid only; the cell is no longer clamped. *)
Example reset_keeps_entries_outside_grid :
  exists s s',
    set_clue (state_of (new 2)) 5 5 1 = Ok s
    /\ reset s = Ok s'
    /\ probabilities s' !! (5, 5) = Some [1%float; 0%float]
    /\ probabilities (state_of (new 2)) !! (5, 5) = None
    /\ is_clamped s' 5 5 = false.
Proof.
  eexists _, _. split; [vm_compute; reflexivity|].
  split; [vm_compute; reflexivity|]. split; [vm_compute; reflexivity|].
  split; vm_compute; reflexivity.
Qed.

(** * Further properties of the methods *)

Section Construction.


Lemma fill_uniform_lookup (n : Z) (u : float) (d : gmap cell (list float)) (rc : cell) :
  filled n u d !! rc
  = if decide ((0 <= rc.1 < n) /\ (0 <= rc.2 < n)) then Some (copies u n) else d !! rc.
Proof.
  case_decide as H; [apply fill_uniform_in, H | apply fill_uniform_out, H].
Qed.

End Construction.



(** X2: [initialize] on a well-formed engine returns; it puts the uniform
    list in every cell of the grid, sets the counter to 0 and clears the
    flag, but it keeps the clamped set, so a clue keeps its place in the set
    while its distribution becomes uniform; entries outside the grid, the
    threshold and the inhibition strength stay. *)
Theorem initialize_keeps_clamped_set (s : NetworkSettling) :
  wf s ->
  exists u s',
    uniform s = Ok u
    /\ initialize s = Ok s'
    /\ clamped s' = clamped s
    /\ grid_size s' = grid_size s
    /\ iteration s' = 0
    /\ is_converged s' = false
    /\ convergence_threshold s' = convergence_threshold s
    /\ inhibition_strength s' = inhibition_strength s
    /\ (forall rc, in_grid s rc -> probabilities s' !! rc = Some u)
    /\ (forall rc, ~ in_grid s rc -> probabilities s' !! rc = probabilities s !! rc)
    /\ wf s'.
Proof.
  intros Hwf. destruct (uniform_ok s Hwf) as (u & Hu & Hunif).
  exists (copies u (grid_size s)). eexists. split; [exact Hunif|].
  rewrite (initialize_ok s u (proj2 (wf_index s Hwf)) Hu). split; [reflexivity|]. simpl.
  repeat (split; [reflexivity|]).
  split; [|split].
  - intros rc Hrc. apply fill_uniform_in, Hrc.
  - intros rc Hrc. apply fill_uniform_out, Hrc.
  - eapply initialize_wf; [apply Hwf | apply initialize_ok; [apply Hwf | exact Hu]].
Qed.

Lemma initialize_keeps_clamped_set_witness :
  wf clued_2x2
  /\ exists u s',
       uniform clued_2x2 = Ok u
       /\ initialize clued_2x2 = Ok s'
       /\ clamped s' = clamped clued_2x2
       /\ grid_size s' = grid_size clued_2x2
       /\ iteration s' = 0
       /\ is_converged s' = false
       /\ convergence_threshold s' = convergence_threshold clued_2x2
       /\ inhibition_strength s' = inhibition_strength clued_2x2
       /\ (forall rc, in_grid clued_2x2 rc -> probabilities s' !! rc = Some u)
       /\ (forall rc, ~ in_grid clued_2x2 rc ->
                      probabilities s' !! rc = probabilities clued_2x2 !! rc)
       /\ wf s'.
Proof.
  assert (Hwf : wf clued_2x2) by (apply wf_check_sound; vm_compute; reflexivity).
  split; [exact Hwf|]. apply (initialize_keeps_clamped_set clued_2x2 Hwf).
Defined.

Section Subscripts.


Lemma max_scan_elem (l : list float) (best : float) (pos i : nat) :
  (Py.max_scan best pos i l).1 = best \/ (Py.max_scan best pos i l).1 ∈ l.
Proof.
  revert best pos i. induction l as [|y l IH]; intros best pos i; simpl; [auto|].
  destruct (best <? y)%float.
  - destruct (IH y i (S i)) as [->|H]; right; [left | right; exact H].
  - destruct (IH best pos (S i)) as [->|H]; [left; reflexivity | right; right; exact H].
Qed.

End Subscripts.



(** X4: after [set_clue] with a value of the grid, [get_most_likely_value]
    reports that value with probability 1.0, [is_clamped] is true and
    [get_probabilities] returns the one-hot list; for every other cell the
    three queries answer as before. *)
Theorem set_clue_then_queries (s s' : NetworkSettling) (row col value : Z) :
  1 <= value <= grid_size s -> set_clue s row col value = Ok s' ->
  get_most_likely_value s' row col = Ok (value, 1%float)
  /\ is_clamped s' row col = true
  /\ get_probabilities s' row col = Ok (one_hot (grid_size s) (Z.to_nat (value - 1)))
  /\ (forall r c, (r, c) <> (row, col) ->
        get_most_likely_value s' r c = get_most_likely_value s r c
        /\ is_clamped s' r c = is_clamped s r c
        /\ get_probabilities s' r c = get_probabilities s r c).
Proof.
  intros Hv H. pose proof (set_clue_inv _ _ _ _ _ H) as [[_ Hn] _].
  rewrite set_clue_ok in H by assumption. inversion H; subst; clear H.
  assert (Hp : <[(row, col) := one_hot (grid_size s) (Z.to_nat (value - 1))]>
                 (probabilities s) !! (row, col)
               = Some (one_hot (grid_size s) (Z.to_nat (value - 1))))
    by apply lookup_insert_eq.
  split; [|split; [|split]].
  - rewrite (get_most_likely_value_one_hot _ row col (Z.to_nat (value - 1)));
      [f_equal; f_equal; lia | simpl; lia | exact Hp].
  - unfold is_clamped. simpl. apply bool_decide_eq_true_2.
    apply elem_of_union_l, elem_of_singleton. reflexivity.
  - unfold get_probabilities, Py.subscript. simpl. rewrite Hp. reflexivity.
  - intros r c Hne.
    assert (Hq : <[(row, col) := one_hot (grid_size s) (Z.to_nat (value - 1))]>
                   (probabilities s) !! (r, c) = probabilities s !! (r, c))
      by (apply lookup_insert_ne; congruence).
    split; [|split].
    + unfold get_most_likely_value, Py.subscript. simpl. rewrite Hq. reflexivity.
    + unfold is_clamped. simpl. apply bool_decide_ext.
      rewrite elem_of_union, elem_of_singleton. tauto.
    + unfold get_probabilities, Py.subscript. simpl. rewrite Hq. reflexivity.
Qed.

Lemma set_clue_then_queries_witness :
  exists s',
    set_clue (state_of (new 4)) 1 2 3 = Ok s'
    /\ get_most_likely_value s' 1 2 = Ok (3, 1%float)
    /\ is_clamped s' 1 2 = true
    /\ get_probabilities s' 1 2
       = Ok (one_hot (grid_size (state_of (new 4))) (Z.to_nat (3 - 1)))
    /\ (forall r c, (r, c) <> (1, 2) ->
          get_most_likely_value s' r c = get_most_likely_value (state_of (new 4)) r c
          /\ is_clamped s' r c = is_clamped (state_of (new 4)) r c
          /\ get_probabilities s' r c = get_probabilities (state_of (new 4)) r c).
Proof.
  eexists. split; [vm_compute; reflexivity|].
  apply (set_clue_then_queries (state_of (new 4)) _ 1 2 3).
  - vm_compute. intuition discriminate.
  - vm_compute. reflexivity.
Defined.

(** X5: [get_most_likely_value] raises [KeyError] for a cell without a
    distribution and [ValueError] for an empty distribution; otherwise it
    returns a value between 1 and the length of the distribution and a
    probability that is one of its entries. *)
Theorem get_most_likely_value_cases (s : NetworkSettling) (row col : Z) :
  match probabilities s !! (row, col) with
  | None => get_most_likely_value s row col = Raise KeyError
  | Some [] => get_most_likely_value s row col = Raise ValueError
  | Some probs =>
      exists value max_prob,
        get_most_likely_value s row col = Ok (value, max_prob)
        /\ 1 <= value <= Z.of_nat (length probs)
        /\ max_prob ∈ probs
  end.
Proof.
  destruct (probabilities s !! (row, col)) as [probs|] eqn:Hp.
  - destruct probs as [|x l].
    + unfold get_most_likely_value, Py.subscript. rewrite Hp. reflexivity.
    + destruct (get_most_likely_value_ok s row col (x :: l) Hp ltac:(discriminate))
        as (v & m & Hv & Hr).
      exists v, m. split; [exact Hv|]. split; [exact Hr|].
      unfold get_most_likely_value, Py.subscript in Hv. rewrite Hp in Hv.
      simpl in Hv. destruct (Py.max_scan x 0 1 l) as [m' pos] eqn:Hscan. simpl in Hv.
      destruct (if bool_decide (0%nat = pos) || (x =? m')%float then Ok 0%nat
                else Py.index_from m' pos 1 l); simpl in Hv; [|discriminate].
      inversion Hv; subst.
      pose proof (max_scan_elem l x 0 1) as Hel. rewrite Hscan in Hel. simpl in Hel.
      destruct Hel as [->|Hel]; [left | right; exact Hel].
  - unfold get_most_likely_value, Py.subscript. rewrite Hp. reflexivity.
Qed.

(** X6: a clue that is removed leaves no trace: [remove_clue] after
    [set_clue] on the same cell returns what [remove_clue] alone returns,
    and when the cell was not clamped and held the uniform list it gives the
    engine back as it was before the clue. *)
Theorem set_clue_then_remove_clue (s s1 : NetworkSettling) (row col value : Z) :
  set_clue s row col value = Ok s1 ->
  remove_clue s1 row col = remove_clue s row col
  /\ (forall u, (row, col) ∉ clamped s ->
        uniform s = Ok u -> probabilities s !! (row, col) = Some u ->
        remove_clue s1 row col = Ok s).
Proof.
  intros H. apply set_clue_inv in H as (Hfits & probs & _ & ->).
  assert (E : remove_clue
                {| grid_size := grid_size s;
                   probabilities := <[(row, col) := probs]> (probabilities s);
                   clamped := {[(row, col)]} ∪ clamped s;
                   iteration := iteration s;
                   convergence_threshold := convergence_threshold s;
                   inhibition_strength := inhibition_strength s;
                   is_converged := is_converged s |} row col
              = remove_clue s row col).
  { unfold remove_clue. simpl.
    destruct (Py.truediv_int 1%float (grid_size s)) as [u|]; simpl; [|reflexivity].
    rewrite repeat_ok by exact Hfits. cbn [bind].
    rewrite insert_insert_eq.
    replace (({[(row, col)]} ∪ clamped s) ∖ {[(row, col)]})
      with (clamped s ∖ {[(row, col)]}); [reflexivity|].
    apply set_eq. intros x. rewrite !elem_of_difference, elem_of_union. tauto. }
  split; [exact E|].
  intros u Hcl Hunif Hp. rewrite E. unfold uniform in Hunif. unfold remove_clue.
  destruct (Py.truediv_int 1%float (grid_size s)) as [q|]; simpl in *; [|discriminate].
  rewrite Hunif. cbn [bind].
  rewrite insert_id by exact Hp.
  rewrite (difference_disjoint_L (clamped s) {[(row, col)]})
    by (apply disjoint_singleton_r; exact Hcl).
  destruct s; reflexivity.
Qed.

Lemma set_clue_then_remove_clue_witness :
  exists s1,
    set_clue (state_of (new 4)) 1 2 3 = Ok s1
    /\ remove_clue s1 1 2 = remove_clue (state_of (new 4)) 1 2
    /\ (forall u, (1, 2) ∉ clamped (state_of (new 4)) ->
          uniform (state_of (new 4)) = Ok u ->
          probabilities (state_of (new 4)) !! (1, 2) = Some u ->
          remove_clue s1 1 2 = Ok (state_of (new 4))).
Proof.
  eexists. split; [vm_compute; reflexivity|].
  apply (set_clue_then_remove_clue (state_of (new 4)) _ 1 2 3).
  vm_compute. reflexivity.
Defined.

(** X7: on a well-formed engine [remove_clue] never raises, whatever the
    coordinates: afterwards the cell is not clamped and holds the uniform
    list, every other cell and every other field is as before, and a second
    [remove_clue] on the cell changes nothing. *)
Theorem remove_clue_effect (s : NetworkSettling) (row col : Z) :
  wf s ->
  exists u s',
    uniform s = Ok u
    /\ remove_clue s row col = Ok s'
    /\ is_clamped s' row col = false
    /\ probabilities s' !! (row, col) = Some u
    /\ (forall rc, rc <> (row, col) ->
          probabilities s' !! rc = probabilities s !! rc
          /\ (rc ∈ clamped s' <-> rc ∈ clamped s))
    /\ grid_size s' = grid_size s
    /\ iteration s' = iteration s
    /\ is_converged s' = is_converged s
    /\ convergence_threshold s' = convergence_threshold s
    /\ inhibition_strength s' = inhibition_strength s
    /\ remove_clue s' row col = Ok s'.
Proof.
  intros Hwf. destruct (uniform_ok s Hwf) as (u & Hu & Hunif).
  exists (copies u (grid_size s)). eexists. split; [exact Hunif|].
  rewrite (remove_clue_ok s row col u (wf_index s Hwf) Hu). split; [reflexivity|]. simpl.
  split; [|split; [|split]].
  - unfold is_clamped. simpl. apply bool_decide_eq_false_2.
    rewrite elem_of_difference, elem_of_singleton. tauto.
  - apply lookup_insert_eq.
  - intros rc Hrc. split; [apply lookup_insert_ne; congruence|].
    rewrite elem_of_difference, elem_of_singleton. tauto.
  - repeat (split; [reflexivity|]).
    unfold remove_clue. simpl. rewrite Hu. simpl.
    rewrite repeat_ok by apply Hwf. cbn [bind].
    rewrite insert_insert_eq. do 2 f_equal.
    apply set_eq. intros x. rewrite !elem_of_difference. tauto.
Qed.

Lemma remove_clue_effect_witness :
  wf clued_2x2
  /\ exists u s',
       uniform clued_2x2 = Ok u
       /\ remove_clue clued_2x2 0 0 = Ok s'
       /\ is_clamped s' 0 0 = false
       /\ probabilities s' !! (0, 0) = Some u
       /\ (forall rc, rc <> (0, 0) ->
             probabilities s' !! rc = probabilities clued_2x2 !! rc
             /\ (rc ∈ clamped s' <-> rc ∈ clamped clued_2x2))
       /\ grid_size s' = grid_size clued_2x2
       /\ iteration s' = iteration clued_2x2
       /\ is_converged s' = is_converged clued_2x2
       /\ convergence_threshold s' = convergence_threshold clued_2x2
       /\ inhibition_strength s' = inhibition_strength clued_2x2
       /\ remove_clue s' 0 0 = Ok s'.
Proof.
  assert (Hwf : wf clued_2x2) by (apply wf_check_sound; vm_compute; reflexivity).
  split; [exact Hwf|]. apply (remove_clue_effect clued_2x2 0 0 Hwf).
Defined.

Section Peers.

Context (s : NetworkSettling).

Lemma clamped_elsewhere_true_inv (at_ : Z -> cell) (self value : Z) (l : list Z) :
  clamped_elsewhere s at_ self value l = Ok true ->
  exists k p, k ∈ l /\ k <> self /\ at_ k ∈ clamped s
              /\ get_most_likely_value s (at_ k).1 (at_ k).2 = Ok (value, p).
Proof.
  induction l as [|k l IH]; simpl; [discriminate|]. intros H.
  assert (Hrec : clamped_elsewhere s at_ self value l = Ok true ->
                 exists k' p, k' ∈ k :: l /\ k' <> self /\ at_ k' ∈ clamped s
                   /\ get_most_likely_value s (at_ k').1 (at_ k').2 = Ok (value, p)).
  { intros H'. destruct (IH H') as (k' & p & Hk' & ?). exists k', p.
    split; [right; exact Hk' | assumption]. }
  case_bool_decide as Hself; [auto|]. case_bool_decide as Hcl; [|auto].
  destruct (get_most_likely_value s (at_ k).1 (at_ k).2) as [[v p]|] eqn:Hv;
    simpl in H; [|discriminate].
  case_bool_decide as Hval; [|auto]. subst v.
  exists k, p. split; [left|]. auto.
Qed.

End Peers.

(** X8: on a well-formed engine [is_value_impossible] returns for every
    cell of the grid, and it returns true exactly when another cell of the
    grid, in the same row or the same column, is clamped and reports
    [value_idx + 1] as its most likely value. *)
Theorem is_value_impossible_iff (s : NetworkSettling) (row col value_idx : Z) :
  wf s -> in_grid s (row, col) ->
  exists impossible,
    is_value_impossible s row col value_idx = Ok impossible
    /\ (impossible = true <->
        exists rc, in_grid s rc /\ rc <> (row, col) /\ (rc.1 = row \/ rc.2 = col)
                   /\ clamped_to s rc (value_idx + 1)).
Proof.
  intros Hwf Hin. destruct (is_value_impossible_ok s Hwf row col value_idx Hin) as [b Hb].
  exists b. split; [exact Hb|]. split.
  - intros ->. unfold is_value_impossible in Hb.
    destruct (clamped_elsewhere s (fun c => (row, c)) col (value_idx + 1)
                (Py.range (grid_size s))) as [in_row|] eqn:Hrow; simpl in Hb; [|discriminate].
    destruct in_row.
    + destruct (clamped_elsewhere_true_inv s _ _ _ _ Hrow) as (k & p & Hk & Hne & Hcl & Hv).
      exists (row, k). split; [eapply row_in_grid; eassumption|].
      split; [congruence|]. split; [left; reflexivity|]. split; [exact Hcl | eauto].
    + destruct (clamped_elsewhere_true_inv s _ _ _ _ Hb) as (k & p & Hk & Hne & Hcl & Hv).
      exists (k, col). split; [eapply col_in_grid; eassumption|].
      split; [congruence|]. split; [right; reflexivity|]. split; [exact Hcl | eauto].
  - intros (rc & Hrc & Hne & Hline & Hclue).
    destruct (clue_makes_impossible s Hwf rc (row, col) (value_idx + 1) Hrc Hin Hne Hline Hclue)
      as [_ Himp].
    simpl in Himp. replace (value_idx + 1 - 1) with value_idx in Himp by lia. congruence.
Qed.

Lemma is_value_impossible_iff_witness :
  exists impossible,
    is_value_impossible clued_2x2 0 1 0 = Ok impossible
    /\ (impossible = true <->
        exists rc, in_grid clued_2x2 rc /\ rc <> (0, 1) /\ (rc.1 = 0 \/ rc.2 = 1)
                   /\ clamped_to clued_2x2 rc (0 + 1)).
Proof.
  apply (is_value_impossible_iff clued_2x2 0 1 0).
  - apply wf_check_sound. vm_compute. reflexivity.
  - vm_compute. intuition discriminate.
Defined.

Section Average.

Context (s : NetworkSettling) (Hwf : wf s).

(** What one loop of [calculate_inhibition] adds up. *)
Lemma inhibition_loop_sum (at_ : Z -> cell) (self value_idx : Z) (l : list Z)
    (total : float) (count : Z) :
  0 <= value_idx < grid_size s ->
  (forall k, k ∈ l -> in_grid s (at_ k)) ->
  let cells := filter (fun rc => rc ∉ clamped s) (at_ <$> filter (fun k => k <> self) l) in
  inhibition_loop s at_ self value_idx (total, count) l
  = Ok (foldl PrimFloat.add total (entry s value_idx <$> cells),
        count + Z.of_nat (length cells)).
Proof.
  intros Hv. cbv zeta. revert total count. induction l as [|k l IH]; intros total count Hl.
  - unfold inhibition_loop. simpl. rewrite Z.add_0_r. reflexivity.
  - assert (Hl' : forall k', k' ∈ l -> in_grid s (at_ k'))
      by (intros k' Hk'; apply Hl; right; exact Hk').
    rewrite inhibition_loop_cons. rewrite filter_cons.
    case_bool_decide as Hself.
    + rewrite decide_False by tauto. apply IH, Hl'.
    + rewrite decide_True by assumption. rewrite fmap_cons, filter_cons.
      case_bool_decide as Hcl.
      * rewrite decide_True by assumption.
        destruct (wf_cells s Hwf (at_ k)) as (probs & Hp & Hlen); [apply Hl; left|].
        unfold Py.subscript. rewrite Hp. cbn [bind].
        destruct (getitem_in_range probs value_idx) as (x & Hx & ->); [lia|]. cbn [bind].
        rewrite IH by exact Hl'.
        rewrite fmap_cons. cbn [foldl length].
        unfold entry at 2. rewrite Hp, Hx. cbn [default from_option].
        rewrite Nat2Z.inj_succ. do 2 f_equal. lia.
      * rewrite decide_False by (first [assumption | intros H'; exact (H' Hcl)]).
        apply IH, Hl'.
Qed.

End Average.

(** X9: on a well-formed engine, for a cell of the grid and a value of the
    grid, [calculate_inhibition] returns the average of the entries for that
    value over the cells of the same row and column that are not clamped,
    the cell itself left out: their sum, taken in the order the loops visit
    them, divided by their number; and 0.0, without dividing, when every
    such cell is clamped. *)
Theorem calculate_inhibition_is_average (s : NetworkSettling) (row col value_idx : Z) :
  wf s -> in_grid s (row, col) -> 0 <= value_idx < grid_size s ->
  let peers := free_peers s row col in
  exists inhibition,
    calculate_inhibition s row col value_idx = Ok inhibition
    /\ (peers = [] -> inhibition = 0%float)
    /\ (peers <> [] ->
        Py.truediv_int (Py.sum (entry s value_idx <$> peers)) (Z.of_nat (length peers))
        = Ok inhibition).
Proof.
  intros Hwf Hin Hv peers.
  destruct (calculate_inhibition_ok s Hwf row col value_idx Hin Hv) as [inh Hinh].
  exists inh. split; [exact Hinh|].
  unfold calculate_inhibition in Hinh.
  rewrite (inhibition_loop_sum s Hwf (fun c => (row, c)) col value_idx _ 0%float 0 Hv) in Hinh
    by eauto using row_in_grid.
  cbn [bind] in Hinh.
  rewrite (inhibition_loop_sum s Hwf (fun r => (r, col)) row value_idx _ _ _ Hv) in Hinh
    by eauto using col_in_grid.
  cbn [bind] in Hinh.
  rewrite <- foldl_app, <- fmap_app, <- filter_app in Hinh.
  fold (line_peers s row col) in Hinh. fold (free_peers s row col) in Hinh. fold peers in Hinh.
  replace (0 + Z.of_nat (length (filter (fun rc => rc ∉ clamped s)
                                   ((fun c => (row, c)) <$>
                                    filter (fun k => k <> col) (Py.range (grid_size s)))))
           + Z.of_nat (length (filter (fun rc => rc ∉ clamped s)
                                 ((fun r => (r, col)) <$>
                                  filter (fun k => k <> row) (Py.range (grid_size s))))))
    with (Z.of_nat (length peers)) in Hinh
    by (unfold peers, free_peers, line_peers; rewrite filter_app, length_app; lia).
  split.
  - intros Hnil. rewrite Hnil in Hinh. simpl in Hinh. congruence.
  - intros Hne. rewrite bool_decide_eq_true_2 in Hinh; [exact Hinh|].
    destruct peers; [congruence | simpl; lia].
Qed.

Lemma calculate_inhibition_is_average_witness :
  exists inhibition,
    calculate_inhibition clued_2x2 0 1 1 = Ok inhibition
    /\ (free_peers clued_2x2 0 1 = [] -> inhibition = 0%float)
    /\ (free_peers clued_2x2 0 1 <> [] ->
        Py.truediv_int (Py.sum (entry clued_2x2 1 <$> free_peers clued_2x2 0 1))
                       (Z.of_nat (length (free_peers clued_2x2 0 1)))
        = Ok inhibition).
Proof.
  apply (calculate_inhibition_is_average clued_2x2 0 1 1).
  - apply wf_check_sound. vm_compute. reflexivity.
  - vm_compute. intuition discriminate.
  - vm_compute. intuition discriminate.
Defined.

Section Normalize.

Lemma sum_zeros (probs : list float) :
  Forall (fun x => x = 0%float) probs -> Py.sum probs = 0%float.
Proof.
  unfold Py.sum. induction 1 as [|x l Hx _ IH]; [reflexivity|].
  subst x. simpl. exact IH.
Qed.

End Normalize.

(** X10: [normalize] turns a list of zeros, the empty list included, into
    the uniform list of the engine (or raises as taking that list does);
    for a list with a positive sum it returns a list of the same length in
    which every entry that was 0.0 is still exactly 0.0. *)
Theorem normalize_cases (s : NetworkSettling) (probs : list float) :
  (Forall (fun x => x = 0%float) probs -> normalize s probs = uniform s)
  /\ ((0 <? Py.sum probs)%float = true ->
      exists out,
        normalize s probs = Ok out
        /\ length out = length probs
        /\ (forall i, probs !! i = Some 0%float -> out !! i = Some 0%float)).
Proof.
  split.
  - intros Hz. unfold normalize, uniform. rewrite (sum_zeros probs Hz). reflexivity.
  - intros Hpos. unfold normalize. rewrite (pos_not_zero _ Hpos).
    eexists. split; [reflexivity|]. split; [apply length_fmap|].
    intros i Hi. rewrite list_lookup_fmap, Hi. simpl. f_equal. apply zero_div_pos, Hpos.
Qed.

Lemma normalize_cases_witness :
  normalize clued_2x2 [0%float; 0%float] = uniform clued_2x2
  /\ exists out,
       normalize clued_2x2 [0%float; 0.375%float] = Ok out
       /\ length out = length [0%float; 0.375%float]
       /\ (forall i, [0%float; 0.375%float] !! i = Some 0%float -> out !! i = Some 0%float).
Proof.
  split.
  - apply (proj1 (normalize_cases clued_2x2 [0%float; 0%float])). repeat constructor.
  - apply (proj2 (normalize_cases clued_2x2 [0%float; 0.375%float])). reflexivity.
Defined.

Section RoundFacts.

Context (s : NetworkSettling) (Hwf : wf s).

(** Clamped cells add nothing to the maximum change. *)
Lemma step_cells_clamped (l : list cell) (d : gmap cell (list float)) (mc : float) :
  (forall rc, rc ∈ l -> in_grid s rc /\ rc ∈ clamped s) ->
  exists d', foldM (step_cell s) (d, mc) l = Ok (d', mc).
Proof.
  revert d. induction l as [|rc l IH]; intros d Hl; cbn [foldM]; [eauto|].
  destruct (Hl rc) as [Hin Hcl]; [left|].
  destruct (wf_cells s Hwf rc Hin) as (p & Hp & _).
  unfold step_cell at 1. rewrite bool_decide_eq_true_2 by assumption.
  unfold Py.subscript. rewrite Hp. cbn [bind].
  apply IH. intros rc' Hrc'. apply Hl. right. exact Hrc'.
Qed.

End RoundFacts.

(** X11: a round on a well-formed engine that has not converged returns;
    it adds one to the counter, keeps the size, the clamped set and the
    parameters, and sets the flag exactly when the change it returns is
    below the threshold.  The new dictionary has the cells of the grid as
    its keys: a clamped cell keeps its list, and every other cell gets what
    [calculate_new_probabilities] computes for it on the engine as it was
    before the round, so no cell sees the new list of another. *)
Theorem step_updates_in_parallel (s : NetworkSettling) :
  wf s -> is_converged s = false ->
  exists max_change s',
    step s = Ok (max_change, s')
    /\ wf s'
    /\ iteration s' = iteration s + 1
    /\ grid_size s' = grid_size s
    /\ clamped s' = clamped s
    /\ convergence_threshold s' = convergence_threshold s
    /\ inhibition_strength s' = inhibition_strength s
    /\ is_converged s' = (max_change <? convergence_threshold s)%float
    /\ (forall rc, in_grid s rc -> rc ∈ clamped s ->
          probabilities s' !! rc = probabilities s !! rc)
    /\ (forall rc, in_grid s rc -> rc ∉ clamped s ->
          exists probs, probabilities s' !! rc = Some probs
                        /\ calculate_new_probabilities s rc.1 rc.2 = Ok probs)
    /\ (forall rc, ~ in_grid s rc -> probabilities s' !! rc = None).
Proof.
  intros Hwf Hconv. destruct (step_loop_ok s Hwf) as (d & mc & Hloop & Hin & Hout).
  assert (Hstep : step s = Ok (mc,
            {| grid_size := grid_size s;
               probabilities := d;
               clamped := clamped s;
               iteration := iteration s + 1;
               convergence_threshold := convergence_threshold s;
               inhibition_strength := inhibition_strength s;
               is_converged :=
                 if (mc <? convergence_threshold s)%float then true else is_converged s |})).
  { unfold step. rewrite Hconv, Hloop. reflexivity. }
  eexists _, _. split; [exact Hstep|]. split; [eapply step_wf; eassumption|]. simpl.
  repeat (split; [reflexivity|]).
  split; [rewrite Hconv; destruct (mc <? convergence_threshold s)%float; reflexivity|].
  split; [|split].
  - intros rc Hrc Hcl. specialize (Hin rc Hrc). unfold next_probs in Hin.
    rewrite bool_decide_eq_true_2 in Hin by assumption.
    destruct (wf_cells s Hwf rc Hrc) as (p & Hp & _).
    unfold Py.subscript in Hin. rewrite Hp in *.
    destruct (d !! rc); simpl in Hin; congruence.
  - intros rc Hrc Hcl. specialize (Hin rc Hrc). unfold next_probs in Hin.
    rewrite bool_decide_eq_false_2 in Hin by assumption.
    destruct (d !! rc) as [p|]; simpl in Hin; [|discriminate].
    exists p. split; [reflexivity | congruence].
  - exact Hout.
Qed.

Lemma step_updates_in_parallel_witness :
  exists max_change s',
    step clued_2x2 = Ok (max_change, s')
    /\ wf s'
    /\ iteration s' = iteration clued_2x2 + 1
    /\ grid_size s' = grid_size clued_2x2
    /\ clamped s' = clamped clued_2x2
    /\ convergence_threshold s' = convergence_threshold clued_2x2
    /\ inhibition_strength s' = inhibition_strength clued_2x2
    /\ is_converged s' = (max_change <? convergence_threshold clued_2x2)%float
    /\ (forall rc, in_grid clued_2x2 rc -> rc ∈ clamped clued_2x2 ->
          probabilities s' !! rc = probabilities clued_2x2 !! rc)
    /\ (forall rc, in_grid clued_2x2 rc -> rc ∉ clamped clued_2x2 ->
          exists probs, probabilities s' !! rc = Some probs
                        /\ calculate_new_probabilities clued_2x2 rc.1 rc.2 = Ok probs)
    /\ (forall rc, ~ in_grid clued_2x2 rc -> probabilities s' !! rc = None).
Proof.
  apply (step_updates_in_parallel clued_2x2).
  - apply wf_check_sound. vm_compute. reflexivity.
  - vm_compute. reflexivity.
Defined.

(** X12: when every cell of the grid is clamped, a round on a well-formed
    engine that has not converged changes no distribution of the grid and
    returns the change 0.0; with a positive threshold the engine has
    converged after this one round. *)
Theorem step_on_clamped_grid (s : NetworkSettling) :
  wf s -> is_converged s = false ->
  (forall rc, in_grid s rc -> rc ∈ clamped s) ->
  exists s',
    step s = Ok (0%float, s')
    /\ iteration s' = iteration s + 1
    /\ (forall rc, in_grid s rc -> probabilities s' !! rc = probabilities s !! rc)
    /\ ((0 <? convergence_threshold s)%float = true -> is_converged s' = true).
Proof.
  intros Hwf Hconv Hall.
  destruct (step_loop_ok s Hwf) as (d & mc & Hloop & Hin & _).
  assert (mc = 0%float).
  { unfold step_loop in Hloop. rewrite (foldM_nested (step_cell s)) in Hloop.
    fold (grid_cells (grid_size s)) in Hloop.
    destruct (step_cells_clamped s Hwf (grid_cells (grid_size s)) ∅ 0%float) as [d' Hd'].
    - intros rc Hrc. apply elem_of_grid_cells in Hrc. split; [exact Hrc | apply Hall, Hrc].
    - congruence. }
  subst mc. eexists. unfold step. rewrite Hconv, Hloop. cbn [bind].
  split; [reflexivity|]. simpl. split; [reflexivity|]. split.
  - intros rc Hrc. specialize (Hin rc Hrc). unfold next_probs in Hin.
    rewrite bool_decide_eq_true_2 in Hin by (apply Hall, Hrc).
    destruct (wf_cells s Hwf rc Hrc) as (p & Hp & _).
    unfold Py.subscript in Hin. rewrite Hp in *.
    destruct (d !! rc); simpl in Hin; congruence.
  - intros ->. reflexivity.
Qed.

Lemma step_on_clamped_grid_witness :
  exists s',
    step solved_2x2 = Ok (0%float, s')
    /\ iteration s' = iteration solved_2x2 + 1
    /\ (forall rc, in_grid solved_2x2 rc ->
          probabilities s' !! rc = probabilities solved_2x2 !! rc)
    /\ ((0 <? convergence_threshold solved_2x2)%float = true -> is_converged s' = true).
Proof.
  apply (step_on_clamped_grid solved_2x2).
  - apply wf_check_sound. vm_compute. reflexivity.
  - vm_compute. reflexivity.
  - intros rc Hrc. apply elem_of_grid_cells in Hrc.
    revert rc Hrc. apply Forall_forall. vm_compute.
    repeat constructor; apply (bool_decide_unpack _); vm_compute; exact I.
Defined.

Section Sequences.

Lemma exec_total (s : NetworkSettling) (o : op) :
  wf s -> values_in_range (grid_size s) [o] = true ->
  exists s', exec s o = Ok s' /\ wf s' /\ grid_size s' = grid_size s.
Proof.
  intros Hwf Hv.
  assert (G : exists s', exec s o = Ok s').
  { destruct o; simpl in *.
    - destruct (uniform_ok s Hwf) as (u & Hu & _).
      rewrite (initialize_ok s u (proj2 (wf_index s Hwf)) Hu). eauto.
    - destruct (uniform_ok s Hwf) as (u & Hu & _). unfold reset.
      rewrite (initialize_ok _ u) by (first [apply Hwf | exact Hu]). eauto.
    - rewrite andb_true_r in Hv. apply bool_decide_eq_true in Hv.
      rewrite set_clue_ok by (first [apply Hwf | assumption]). eauto.
    - destruct (uniform_ok s Hwf) as (u & Hu & _).
      rewrite (remove_clue_ok s row col u (wf_index s Hwf) Hu).
      eauto.
    - eauto.
    - destruct (step_total s Hwf) as (mc & s' & -> & _). simpl. eauto. }
  destruct G as [s' Hs']. exists s'. split; [exact Hs'|].
  split; [eapply exec_wf; eassumption | eapply exec_keeps_parameters; eassumption].
Qed.

End Sequences.

(** X13: on a well-formed engine no sequence of calls raises, as long as
    every [set_clue] in it passes a value from 1 to [grid_size]; the engine
    it ends in is well formed and has the same size and threshold. *)
Theorem run_never_raises (s : NetworkSettling) (ops : list op) :
  wf s -> values_in_range (grid_size s) ops = true ->
  exists s',
    run s ops = Ok s'
    /\ wf s'
    /\ grid_size s' = grid_size s
    /\ convergence_threshold s' = convergence_threshold s.
Proof.
  revert s. induction ops as [|o ops IH]; intros s Hwf Hv.
  - exists s. auto.
  - unfold values_in_range in Hv. cbn [forallb] in Hv. apply andb_prop in Hv as [Ho Hops].
    destruct (exec_total s o Hwf) as (s1 & Hs1 & Hwf1 & Hn1).
    { unfold values_in_range. cbn [forallb]. rewrite Ho. reflexivity. }
    destruct (IH s1 Hwf1) as (s' & Hrun & Hwf' & Hn' & Hthr').
    { rewrite Hn1. exact Hops. }
    exists s'. unfold run in *. cbn [foldM]. rewrite Hs1. cbn [bind].
    split; [exact Hrun|]. split; [exact Hwf'|].
    destruct (exec_keeps_parameters _ _ _ Hs1) as [_ Hthr1].
    split; congruence.
Qed.

Lemma run_never_raises_witness :
  exists s',
    run clued_2x2 [OpStep; OpSetClue 1 1 2; OpRemoveClue 0 0; OpStep; OpReset] = Ok s'
    /\ wf s'
    /\ grid_size s' = grid_size clued_2x2
    /\ convergence_threshold s' = convergence_threshold clued_2x2.
Proof.
  apply (run_never_raises clued_2x2).
  - apply wf_check_sound. vm_compute. reflexivity.
  - vm_compute. reflexivity.
Defined.

Section Strength.

Lemma spec_not_nan (x : float) : Prim2SF x <> S754_nan -> is_nan x = false.
Proof.
  intros Hx. unfold is_nan. rewrite FloatAxioms.eqb_spec. unfold SFeqb.
  destruct (SFcompare_rank (Prim2SF x) (Prim2SF x) Hx Hx) as (c & -> & _ & Heq & _).
  destruct Heq as [_ Heq]. rewrite (Heq eq_refl). reflexivity.
Qed.

(** Only numbers are related by [<]. *)
Lemma ltb_numbers (x y : float) :
  (x <? y)%float = true -> is_nan x = false /\ is_nan y = false.
Proof.
  rewrite ltb_spec. unfold SFltb. intros H.
  split; apply spec_not_nan; intros E; rewrite E in H;
    [|destruct (Prim2SF x)]; simpl in H; discriminate.
Qed.

End Strength.

(** X14: [set_inhibition_strength] stores a number between 0.0 and 1.0
    whatever it is given: the argument itself when it is above 0.0 and below
    1.0, 1.0 when it is not below 1.0 (NaN included), and 0.0 when it is
    below 1.0 but not above 0.0; it changes no other field. *)
Theorem set_inhibition_strength_clamps (s : NetworkSettling) (strength : float) :
  let s' := set_inhibition_strength s strength in
  (0 <=? inhibition_strength s')%float = true
  /\ (inhibition_strength s' <=? 1)%float = true
  /\ ((0 <? strength)%float = true -> (strength <? 1)%float = true ->
      inhibition_strength s' = strength)
  /\ ((strength <? 1)%float = false -> inhibition_strength s' = 1%float)
  /\ ((strength <? 1)%float = true -> (0 <? strength)%float = false ->
      inhibition_strength s' = 0%float)
  /\ grid_size s' = grid_size s
  /\ probabilities s' = probabilities s
  /\ clamped s' = clamped s
  /\ iteration s' = iteration s
  /\ convergence_threshold s' = convergence_threshold s
  /\ is_converged s' = is_converged s.
Proof.
  cbv zeta. simpl. unfold Py.max2, Py.min2.
  destruct (strength <? 1)%float eqn:H1; [destruct (0 <? strength)%float eqn:H0|].
  - destruct (ltb_numbers _ _ H0) as [_ Hx].
    split; [apply ltb_leb; [reflexivity | exact Hx | exact H0]|].
    split; [apply ltb_leb; [exact Hx | reflexivity | exact H1]|].
    repeat split; intros; congruence.
  - repeat split; intros; congruence.
  - change (0 <? 1)%float with true. cbn iota.
    repeat split; intros; congruence.
Qed.

Lemma set_inhibition_strength_clamps_witness :
  inhibition_strength (set_inhibition_strength clued_2x2 1.5%float) = 1%float
  /\ inhibition_strength (set_inhibition_strength clued_2x2 (-1)%float) = 0%float
  /\ inhibition_strength (set_inhibition_strength clued_2x2 0.25%float) = 0.25%float
  /\ inhibition_strength (set_inhibition_strength clued_2x2 nan) = 1%float.
Proof.
  pose proof (set_inhibition_strength_clamps clued_2x2 1.5%float) as (_ & _ & _ & H1 & _).
  pose proof (set_inhibition_strength_clamps clued_2x2 (-1)%float) as (_ & _ & _ & _ & H2 & _).
  pose proof (set_inhibition_strength_clamps clued_2x2 0.25%float) as (_ & _ & H3 & _).
  pose proof (set_inhibition_strength_clamps clued_2x2 nan) as (_ & _ & _ & H4 & _).
  split; [apply H1; reflexivity|]. split; [apply H2; reflexivity|].
  split; [apply H3; reflexivity | apply H4; reflexivity].
Defined.

Section Grid.

Lemma mapM_ok {A B : Type} (f : A -> res B) (g : A -> B) (l : list A) :
  (forall x, x ∈ l -> f x = Ok (g x)) -> mapM f l = Ok (g <$> l).
Proof.
  induction l as [|x l IH]; intros Hl; simpl; [reflexivity|].
  rewrite (Hl x) by left. simpl. rewrite IH; [reflexivity|].
  intros y Hy. apply Hl. right. exact Hy.
Qed.

End Grid.

(** X15: on a well-formed engine [get_grid] returns [grid_size] rows of
    [grid_size] values: the entry in row [row] and column [col] is the most
    likely value of the cell [(row, col)], a number from 1 to [grid_size]. *)
Theorem get_grid_shape (s : NetworkSettling) :
  wf s ->
  get_grid s
  = Ok ((fun row => (fun col => most_likely_value s (row, col)) <$> Py.range (grid_size s))
          <$> Py.range (grid_size s))
  /\ (forall rc, in_grid s rc -> 1 <= most_likely_value s rc <= grid_size s).
Proof.
  intros Hwf.
  assert (Hv : forall rc, in_grid s rc ->
            exists p, get_most_likely_value s rc.1 rc.2 = Ok (most_likely_value s rc, p)
                      /\ 1 <= most_likely_value s rc <= grid_size s).
  { intros rc Hrc. destruct (get_most_likely_value_wf s rc Hwf Hrc) as (v & p & Hv & Hr).
    exists p. unfold most_likely_value. rewrite Hv. auto. }
  split.
  - unfold get_grid. apply mapM_ok. intros row Hrow. apply mapM_ok. intros col Hcol.
    apply elem_of_range in Hrow, Hcol.
    destruct (Hv (row, col)) as (p & Hp & _); [split; assumption|].
    simpl in Hp. rewrite Hp. reflexivity.
  - intros rc Hrc. destruct (Hv rc Hrc) as (p & _ & Hr). exact Hr.
Qed.

Lemma get_grid_shape_witness :
  get_grid clued_2x2
  = Ok ((fun row => (fun col => most_likely_value clued_2x2 (row, col))
                      <$> Py.range (grid_size clued_2x2))
          <$> Py.range (grid_size clued_2x2))
  /\ (forall rc, in_grid clued_2x2 rc ->
                 1 <= most_likely_value clued_2x2 rc <= grid_size clued_2x2).
Proof.
  apply (get_grid_shape clued_2x2). apply wf_check_sound. vm_compute. reflexivity.
Defined.

Section Change.

(** A probability minus itself is the positive zero. *)
Lemma abs_sub_self (x : float) :
  (0 <=? x)%float = true -> (x <=? 1)%float = true -> abs (x - x)%float = 0%float.
Proof.
  intros H0 H1. rewrite leb_spec in H0, H1. apply Prim2SF_inj.
  rewrite abs_spec, sub_spec.
  change (Prim2SF 0) with (S754_zero false) in *.
  change (Prim2SF 1) with (S754_finite false 4503599627370496 (-52)) in *.
  destruct (Prim2SF x) as [sx|sx| |sx mx ex]; try discriminate.
  - destruct sx; reflexivity.
  - destruct sx; simpl in *; discriminate.
  - destruct sx; [simpl in H0; discriminate|].
    unfold SF64sub, SFsub. rewrite Z.min_id. unfold shl_align.
    match goal with
    | |- context [binary_normalize _ _ ?m _ _] => assert (E : m = 0) by (cbn [cond_Zopp]; lia)
    end.
    rewrite E. reflexivity.
Qed.

Lemma zip_with_self_zeros (probs : list float) :
  Forall (fun x => (0 <=? x)%float = true /\ (x <=? 1)%float = true) probs ->
  zip_with (fun old new => abs (new - old)%float) probs probs
  = replicate (length probs) 0%float.
Proof.
  induction 1 as [|x l [H0 H1] _ IH]; [reflexivity|]. simpl.
  rewrite abs_sub_self by assumption. f_equal. exact IH.
Qed.

End Change.

(** X16: [calculate_change] raises [ValueError] when one of the two lists
    is empty and returns otherwise; between a non-empty list of
    probabilities (entries from 0.0 to 1.0) and itself the change is
    exactly 0.0. *)
Theorem calculate_change_cases (old_probs new_probs : list float) :
  (old_probs = [] \/ new_probs = [] ->
   calculate_change old_probs new_probs = Raise ValueError)
  /\ (old_probs <> [] -> new_probs <> [] ->
      exists change, calculate_change old_probs new_probs = Ok change)
  /\ (old_probs <> [] ->
      Forall (fun x => (0 <=? x)%float = true /\ (x <=? 1)%float = true) old_probs ->
      calculate_change old_probs old_probs = Ok 0%float).
Proof.
  split; [|split].
  - intros [-> | ->]; [reflexivity|]. destruct old_probs; reflexivity.
  - apply calculate_change_ok.
  - intros Hne Hp. unfold calculate_change. rewrite (zip_with_self_zeros _ Hp).
    destruct old_probs as [|x l]; [congruence|]. simpl.
    rewrite max_scan_zeros by auto. reflexivity.
Qed.

Lemma calculate_change_cases_witness :
  calculate_change [] [0.5%float] = Raise ValueError
  /\ (exists change, calculate_change [0.5%float; 0.5%float] [0%float; 1%float] = Ok change)
  /\ calculate_change [0.5%float; 0.5%float] [0.5%float; 0.5%float] = Ok 0%float.
Proof.
  split; [apply (proj1 (calculate_change_cases [] [0.5%float])); left; reflexivity|].
  split.
  - apply (proj1 (proj2 (calculate_change_cases [0.5%float; 0.5%float] [0%float; 1%float])));
      discriminate.
  - apply (proj2 (proj2 (calculate_change_cases [0.5%float; 0.5%float] [0.5%float; 0.5%float])));
      [discriminate | repeat constructor].
Defined.

Section CluedGrid.

Context (s : NetworkSettling) (Hwf : wf s) (value : cell -> Z).
Context (Hclues : forall rc, in_grid s rc ->
           1 <= value rc <= grid_size s
           /\ probabilities s !! rc
              = Some (one_hot (grid_size s) (Z.to_nat (value rc - 1)))).

Lemma clued_most_likely (rc : cell) :
  in_grid s rc -> get_most_likely_value s rc.1 rc.2 = Ok (value rc, 1%float).
Proof.
  intros Hrc. destruct (Hclues rc Hrc) as [Hv Hp]. destruct rc as [row col].
  cbn [fst snd].
  rewrite (get_most_likely_value_one_hot s row col (Z.to_nat (value (row, col) - 1)));
    [simpl; do 2 f_equal; lia | lia | exact Hp].
Qed.

Lemma clued_values (rc : cell) : in_grid s rc -> most_likely_value s rc = value rc.
Proof.
  intros Hrc. unfold most_likely_value. rewrite clued_most_likely by exact Hrc. reflexivity.
Qed.

Lemma clued_confident (rc : cell) :
  in_grid s rc -> (confidence <=? most_likely_probability s rc)%float = true.
Proof.
  intros Hrc. unfold most_likely_probability. rewrite clued_most_likely by exact Hrc.
  reflexivity.
Qed.

End CluedGrid.

(** X17: when every cell of the grid holds the one-hot list of a value of
    the grid, [is_valid_solution] returns, and it returns true exactly when
    two different cells of a row, or of a column, never hold the same
    value, that is when the clues form a Latin square. *)
Theorem is_valid_solution_on_clued_grid (s : NetworkSettling) (value : cell -> Z) :
  wf s ->
  (forall rc, in_grid s rc ->
     1 <= value rc <= grid_size s
     /\ probabilities s !! rc = Some (one_hot (grid_size s) (Z.to_nat (value rc - 1)))) ->
  (exists ok, is_valid_solution s = Ok ok)
  /\ (is_valid_solution s = Ok true <-> latin_square (grid_size s) value).
Proof.
  intros Hwf Hclues.
  destruct (is_valid_solution_refines s Hwf) as (ok & Hok & Hiff).
  { intros rc Hrc. unfold most_likely_probability.
    rewrite (clued_most_likely s value Hclues rc Hrc). reflexivity. }
  split; [eauto|]. rewrite Hok.
  assert (Hspec : valid_solution_spec s <-> latin_square (grid_size s) value).
  { unfold valid_solution_spec, latin_square. cbv zeta. split.
    - intros [Hrows Hcols]. split.
      + intros row col1 col2 Hr H1 H2 Hne.
        rewrite <- !(clued_values s value Hclues) by (split; assumption).
        apply (Hrows row Hr); assumption.
      + intros col row1 row2 Hc H1 H2 Hne.
        rewrite <- !(clued_values s value Hclues) by (split; assumption).
        apply (Hcols col Hc); assumption.
    - intros [Hrows Hcols]. split.
      + intros row Hr. split.
        * intros col1 col2 H1 H2 Hne.
          rewrite !(clued_values s value Hclues) by (split; assumption).
          apply Hrows; assumption.
        * intros col Hc. apply (clued_confident s value Hclues). split; assumption.
      + intros col Hc row1 row2 H1 H2 Hne.
        rewrite !(clued_values s value Hclues) by (split; assumption).
        apply Hcols; assumption. }
  rewrite <- Hspec, <- lines_valid_iff, <- Hiff. split; congruence.
Qed.

Lemma is_valid_solution_on_clued_grid_witness :
  (exists ok, is_valid_solution solved_2x2 = Ok ok)
  /\ (is_valid_solution solved_2x2 = Ok true
      <-> latin_square (grid_size solved_2x2) solved_2x2_value).
Proof.
  apply (is_valid_solution_on_clued_grid solved_2x2 solved_2x2_value).
  - apply wf_check_sound. vm_compute. reflexivity.
  - intros rc Hrc. apply elem_of_grid_cells in Hrc. revert rc Hrc. apply Forall_forall.
    replace (grid_cells (grid_size solved_2x2)) with [(0, 0); (0, 1); (1, 0); (1, 1)]
      by (vm_compute; reflexivity).
    repeat constructor; try (vm_compute; intuition discriminate); vm_compute; reflexivity.
Defined.

Section Snapshots.

(** On a well-formed engine [to_json] returns the snapshot object. *)
Lemma to_json_ok (s : NetworkSettling) :
  wf s -> exists j, to_json s = Ok j /\ field_names j = snapshot_fields.
Proof.
  intros Hwf. unfold to_json, get_grid.
  rewrite (mapM_ok _ (fun row => (fun col => most_likely_value s (row, col))
                                   <$> Py.range (grid_size s))).
  - simpl. eexists. split; reflexivity.
  - intros row Hrow. apply mapM_ok. intros col Hcol. apply elem_of_range in Hrow, Hcol.
    destruct (get_most_likely_value_wf s (row, col) Hwf) as (v & p & Hv & _);
      [split; assumption|].
    simpl in Hv. unfold most_likely_value. simpl. rewrite Hv. reflexivity.
Qed.


End Snapshots.



(** X19: with a well-formed engine in the global, [get_state],
    [set_inhibition], [remove_clue], [reset] and [step] never raise and
    never answer with the error object: each returns the snapshot of the
    engine its method leaves, with the six snapshot fields, and stores that
    engine in the global; [step] appends the field [max_change].
    [set_clue] does the same for a value of the grid and passes the
    [IndexError] of the method on otherwise. *)
Theorem adapters_on_engine (s : NetworkSettling) :
  wf s ->
  (exists j, to_json s = Ok j /\ field_names j = snapshot_fields
             /\ Api.get_state (Some s) = Ok (j, Some s))
  /\ (forall strength, exists j,
        to_json (set_inhibition_strength s strength) = Ok j
        /\ field_names j = snapshot_fields
        /\ Api.set_inhibition (Some s) strength
           = Ok (j, Some (set_inhibition_strength s strength)))
  /\ (forall row col, exists s' j,
        remove_clue s row col = Ok s' /\ to_json s' = Ok j
        /\ field_names j = snapshot_fields
        /\ Api.remove_clue (Some s) row col = Ok (j, Some s'))
  /\ (exists s' j,
        reset s = Ok s' /\ to_json s' = Ok j
        /\ field_names j = snapshot_fields
        /\ Api.reset (Some s) = Ok (j, Some s'))
  /\ (exists max_change s' fields,
        step s = Ok (max_change, s') /\ to_json s' = Ok (JObj fields)
        /\ fields.*1 = snapshot_fields
        /\ Api.step (Some s)
           = Ok (JObj (fields ++ [("max_change", JFloat max_change)]), Some s'))
  /\ (forall row col value,
        (1 <= value <= grid_size s ->
         exists s' j,
           set_clue s row col value = Ok s' /\ to_json s' = Ok j
           /\ field_names j = snapshot_fields
           /\ Api.set_clue (Some s) row col value = Ok (j, Some s'))
        /\ (forall e, set_clue s row col value = Raise e ->
                      Api.set_clue (Some s) row col value = Raise e)).
Proof.
  intros Hwf. split; [|split; [|split; [|split; [|split]]]].
  - destruct (to_json_ok s Hwf) as (j & Hj & Hn). exists j.
    split; [exact Hj|]. split; [exact Hn|]. unfold Api.get_state. rewrite Hj. reflexivity.
  - intros x. destruct (to_json_ok _ (set_inhibition_strength_wf s x Hwf)) as (j & Hj & Hn).
    exists j. split; [exact Hj|]. split; [exact Hn|].
    unfold Api.set_inhibition. rewrite Hj. reflexivity.
  - intros row col. destruct (uniform_ok s Hwf) as (u & Hu & _).
    pose proof (remove_clue_ok s row col u (wf_index s Hwf) Hu) as Hr.
    destruct (to_json_ok _ (remove_clue_wf s _ row col Hwf Hr)) as (j & Hj & Hn).
    eexists _, j. split; [exact Hr|]. split; [exact Hj|]. split; [exact Hn|].
    unfold Api.remove_clue. rewrite Hr. cbn [bind]. rewrite Hj. reflexivity.
  - destruct (uniform_ok s Hwf) as (u & Hu & _).
    assert (Hr : exists s', reset s = Ok s').
    { unfold reset. rewrite (initialize_ok _ u) by (first [apply Hwf | exact Hu]). eauto. }
    destruct Hr as [s' Hr].
    destruct (to_json_ok _ (reset_wf s s' Hwf Hr)) as (j & Hj & Hn).
    exists s', j. split; [exact Hr|]. split; [exact Hj|]. split; [exact Hn|].
    unfold Api.reset. rewrite Hr. cbn [bind]. rewrite Hj. reflexivity.
  - destruct (step_total s Hwf) as (mc & s' & Hstep & Hwf').
    destruct (to_json_ok _ Hwf') as (j & Hj & Hn).
    destruct j as [| | | | |fields]; try discriminate.
    exists mc, s', fields. split; [exact Hstep|]. split; [exact Hj|]. split; [exact Hn|].
    unfold Api.step. rewrite Hstep. cbn [bind]. rewrite Hj. reflexivity.
  - intros row col value. split.
    + intros Hv. pose proof (set_clue_ok s row col value (proj2 (wf_index s Hwf)) Hv) as Hr.
      destruct (to_json_ok _ (set_clue_wf s _ row col value Hwf Hr)) as (j & Hj & Hn).
      eexists _, j. split; [exact Hr|]. split; [exact Hj|]. split; [exact Hn|].
      unfold Api.set_clue. rewrite Hr. cbn [bind]. rewrite Hj. reflexivity.
    + intros e He. unfold Api.set_clue. rewrite He. reflexivity.
Qed.

Lemma adapters_on_engine_witness :
  wf clued_2x2
  /\ (exists j, to_json clued_2x2 = Ok j /\ field_names j = snapshot_fields
                /\ Api.get_state (Some clued_2x2) = Ok (j, Some clued_2x2))
  /\ (forall strength, exists j,
        to_json (set_inhibition_strength clued_2x2 strength) = Ok j
        /\ field_names j = snapshot_fields
        /\ Api.set_inhibition (Some clued_2x2) strength
           = Ok (j, Some (set_inhibition_strength clued_2x2 strength)))
  /\ (forall row col, exists s' j,
        remove_clue clued_2x2 row col = Ok s' /\ to_json s' = Ok j
        /\ field_names j = snapshot_fields
        /\ Api.remove_clue (Some clued_2x2) row col = Ok (j, Some s'))
  /\ (exists s' j,
        reset clued_2x2 = Ok s' /\ to_json s' = Ok j
        /\ field_names j = snapshot_fields
        /\ Api.reset (Some clued_2x2) = Ok (j, Some s'))
  /\ (exists max_change s' fields,
        step clued_2x2 = Ok (max_change, s') /\ to_json s' = Ok (JObj fields)
        /\ fields.*1 = snapshot_fields
        /\ Api.step (Some clued_2x2)
           = Ok (JObj (fields ++ [("max_change", JFloat max_change)]), Some s'))
  /\ (forall row col value,
        (1 <= value <= grid_size clued_2x2 ->
         exists s' j,
           set_clue clued_2x2 row col value = Ok s' /\ to_json s' = Ok j
           /\ field_names j = snapshot_fields
           /\ Api.set_clue (Some clued_2x2) row col value = Ok (j, Some s'))
        /\ (forall e, set_clue clued_2x2 row col value = Raise e ->
                      Api.set_clue (Some clued_2x2) row col value = Raise e)).
Proof.
  assert (Hwf : wf clued_2x2) by (apply wf_check_sound; vm_compute; reflexivity).
  split; [exact Hwf|]. apply (adapters_on_engine clued_2x2 Hwf).
Defined.

Section NonNegative.

Context (s : NetworkSettling) (Hwf : wf s).

(** [max(0.0, y)] is a number that is not below zero, whatever [y] is. *)
Lemma max2_zero_nonneg (y : float) : (0 <=? Py.max2 0 y)%float = true.
Proof.
  unfold Py.max2. destruct (0 <? y)%float eqn:H; [|reflexivity].
  destruct (ltb_numbers _ _ H) as [H0 Hy]. apply ltb_leb; assumption.
Qed.

Lemma update_value_nonneg (row col value_idx : Z) (current_probs new_probs : list float) :
  in_grid s (row, col) -> 0 <= value_idx < grid_size s ->
  length current_probs = Z.to_nat (grid_size s) ->
  length new_probs = Z.to_nat (grid_size s) ->
  exists x,
    update_value s row col current_probs new_probs value_idx
      = Ok (<[Z.to_nat value_idx := x]> new_probs)
    /\ (0 <=? x)%float = true.
Proof.
  intros Hin Hv Hcur Hnew. unfold update_value.
  destruct (is_value_impossible_ok s Hwf row col value_idx Hin) as [b ->]. cbn [bind].
  destruct b.
  - exists 0%float. rewrite setitem_in_range by lia. auto.
  - destruct (calculate_inhibition_ok s Hwf row col value_idx Hin Hv) as [inh ->]. cbn [bind].
    destruct (getitem_in_range current_probs value_idx) as (cur & _ & ->); [lia|]. cbn [bind].
    rewrite setitem_in_range by lia. cbn [bind].
    rewrite getitem_setitem by lia. cbn [bind].
    rewrite setitem_in_range by (rewrite length_insert; lia).
    rewrite list_insert_insert_eq. eexists. split; [reflexivity | apply max2_zero_nonneg].
Qed.

Lemma update_loop_nonneg (row col : Z) (current_probs : list float) (l : list Z)
    (new_probs out : list float) :
  in_grid s (row, col) ->
  length current_probs = Z.to_nat (grid_size s) ->
  length new_probs = Z.to_nat (grid_size s) ->
  NoDup l -> (forall v, v ∈ l -> 0 <= v < grid_size s) ->
  foldM (update_value s row col current_probs) new_probs l = Ok out ->
  forall v, v ∈ l -> exists x, out !! Z.to_nat v = Some x /\ (0 <=? x)%float = true.
Proof.
  intros Hin Hcur. revert new_probs.
  induction l as [|w l IH]; intros new_probs Hnew Hnd Hl Hout v Hv; [inversion Hv|].
  apply NoDup_cons in Hnd as [Hw Hnd].
  assert (Hwr : 0 <= w < grid_size s) by (apply Hl; left).
  assert (Hl' : forall u, u ∈ l -> 0 <= u < grid_size s)
    by (intros u Hu; apply Hl; right; exact Hu).
  destruct (update_value_nonneg row col w current_probs new_probs Hin Hwr Hcur Hnew)
    as (x & Hx & Hpos).
  cbn [foldM] in Hout. rewrite Hx in Hout. cbn [bind] in Hout.
  assert (Hlen' : length (<[Z.to_nat w := x]> new_probs) = Z.to_nat (grid_size s))
    by (rewrite length_insert; assumption).
  apply elem_of_cons in Hv as [->|Hv].
  - exists x. split; [|exact Hpos].
    rewrite (update_loop_keeps s Hwf row col w current_probs l _ out Hin ltac:(lia)
               Hcur Hlen' Hw Hl' Hout).
    apply list_lookup_insert_eq. lia.
  - apply (IH _ Hlen' Hnd Hl' Hout v Hv).
Qed.

End NonNegative.

(** X20: on a well-formed engine the list [calculate_new_probabilities]
    hands to [normalize] for a cell of the grid has [grid_size] entries,
    each of them a number that is not below 0.0: the loop writes either 0.0
    or [max(0.0, ...)] into every slot, so neither a negative entry nor a
    NaN reaches the sum. *)
Theorem unnormalized_is_nonnegative (s : NetworkSettling) (row col : Z) :
  wf s -> in_grid s (row, col) ->
  exists new_probs,
    unnormalized s row col = Ok new_probs
    /\ length new_probs = Z.to_nat (grid_size s)
    /\ Forall (fun x => (0 <=? x)%float = true) new_probs.
Proof.
  intros Hwf Hin. destruct (unnormalized_ok s Hwf row col Hin) as (np & Hnp & Hlen & _).
  exists np. split; [exact Hnp|]. split; [exact Hlen|].
  destruct (wf_cells s Hwf (row, col) Hin) as (cur & Hcur & Hlenc).
  unfold unnormalized, Py.subscript in Hnp. rewrite Hcur in Hnp. cbn [bind] in Hnp.
  apply Forall_lookup. intros i x Hi.
  assert (Hir : (i < Z.to_nat (grid_size s))%nat)
    by (rewrite <- Hlen; eapply lookup_lt_Some; exact Hi).
  destruct (update_loop_nonneg s Hwf row col cur (Py.range (grid_size s)) cur np Hin Hlenc Hlenc
              (NoDup_range _) ltac:(intros v Hv; apply elem_of_range in Hv; exact Hv) Hnp
              (Z.of_nat i)) as (y & Hy & Hpos).
  - apply elem_of_range. lia.
  - rewrite Nat2Z.id in Hy. congruence.
Qed.

Lemma unnormalized_is_nonnegative_witness :
  exists new_probs,
    unnormalized clued_2x2 0 1 = Ok new_probs
    /\ length new_probs = Z.to_nat (grid_size clued_2x2)
    /\ Forall (fun x => (0 <=? x)%float = true) new_probs.
Proof.
  apply (unnormalized_is_nonnegative clued_2x2 0 1).
  - apply wf_check_sound. vm_compute. reflexivity.
  - vm_compute. intuition discriminate.
Defined.

Section Keys.

Lemma pretty_N_char_no_comma (x : N) : pretty_N_char x <> ","%char.
Proof. unfold pretty_N_char. repeat case_match; discriminate. Qed.

Lemma pretty_N_go_comma (x : N) (t : string) :
  has_comma (pretty_N_go x t) = has_comma t.
Proof.
  revert t. induction (N.lt_wf_0 x) as [x _ IH]; intros t.
  assert (x = 0 \/ 0 < x)%N as [->|Hx] by lia.
  - rewrite pretty_N_go_0. reflexivity.
  - rewrite pretty_N_go_step by exact Hx. rewrite IH by (apply N.div_lt; lia).
    simpl. rewrite bool_decide_eq_false_2 by apply pretty_N_char_no_comma. reflexivity.
Qed.

Lemma pretty_N_comma (x : N) : has_comma (pretty x) = false.
Proof.
  unfold pretty, pretty_N. case_decide; [reflexivity|]. apply pretty_N_go_comma.
Qed.

Lemma pretty_Z_comma (z : Z) : has_comma (pretty z) = false.
Proof.
  destruct z as [|p|p]; unfold pretty, pretty_Z; [reflexivity | apply pretty_N_comma|].
  simpl. apply pretty_N_comma.
Qed.

(** Two strings without a comma that agree up to the first comma agree,
    and so do the rests. *)
Lemma split_at_comma (a a' b b' : string) :
  has_comma a = false -> has_comma a' = false ->
  a +:+ String ","%char b = a' +:+ String ","%char b' -> a = a' /\ b = b'.
Proof.
  revert a'. induction a as [|c a IH]; intros [|c' a'] Ha Ha' E; simpl in *.
  - inversion E. auto.
  - inversion E; subst. rewrite bool_decide_eq_true_2 in Ha' by reflexivity. discriminate.
  - inversion E; subst. rewrite bool_decide_eq_true_2 in Ha by reflexivity. discriminate.
  - inversion E; subst. apply orb_false_iff in Ha as [_ Ha], Ha' as [_ Ha'].
    destruct (IH a' Ha Ha' H1) as [-> ->]. auto.
Qed.

Lemma cell_key_inj (rc rc' : cell) : cell_key rc = cell_key rc' -> rc = rc'.
Proof.
  unfold cell_key. intros E.
  apply split_at_comma in E as [E1 E2]; [|apply pretty_Z_comma..].
  apply (inj pretty) in E1, E2. destruct rc, rc'; simpl in *; congruence.
Qed.

End Keys.

(** X21: in the snapshot [to_json] returns, the object under
    ["probabilities"] has one entry for every stored distribution and no
    other: the keys [f"{row},{col}"] of different cells differ, so the keys
    of the object are pairwise distinct and no distribution hides another. *)
Theorem snapshot_lists_every_distribution (s : NetworkSettling) (j : json) :
  to_json s = Ok j ->
  exists entries,
    get_field "probabilities" j = Some (JObj entries)
    /\ NoDup entries.*1
    /\ length entries = size (probabilities s)
    /\ (forall rc probs,
          probabilities s !! rc = Some probs
          <-> (cell_key rc, JList (JFloat <$> probs)) ∈ entries).
Proof.
  unfold to_json. destruct (get_grid s) as [grid|]; simpl; [|discriminate].
  intros E. inversion E; subst; clear E.
  eexists. split; [reflexivity|]. split; [|split].
  - assert (Hkeys : ((fun kv : cell * list float => (cell_key kv.1, JList (JFloat <$> kv.2)))
                       <$> map_to_list (probabilities s)).*1
                    = cell_key <$> (map_to_list (probabilities s)).*1)
      by (rewrite <- !list_fmap_compose; reflexivity).
    rewrite Hkeys.
    apply NoDup_fmap_2; [intros rc rc'; apply cell_key_inj | apply NoDup_fst_map_to_list].
  - rewrite length_fmap. apply length_map_to_list.
  - intros rc probs. rewrite list_elem_of_fmap. split.
    + intros Hp. exists (rc, probs). split; [reflexivity|]. apply elem_of_map_to_list, Hp.
    + intros ([rc' probs'] & Hkv & Hin). simpl in Hkv. inversion Hkv as [[Hk Hl]].
      apply cell_key_inj in Hk. subst rc'.
      assert (probs' = probs).
      { clear -Hl. revert probs Hl. induction probs' as [|x l IH]; intros [|y l'] Hl;
          simpl in Hl; try discriminate; [reflexivity|].
        inversion Hl; subst. f_equal. apply IH. assumption. }
      subst probs'. apply elem_of_map_to_list, Hin.
Qed.

Lemma snapshot_lists_every_distribution_witness :
  exists j entries,
    to_json clued_2x2 = Ok j
    /\ get_field "probabilities" j = Some (JObj entries)
    /\ NoDup entries.*1
    /\ length entries = size (probabilities clued_2x2)
    /\ (forall rc probs,
          probabilities clued_2x2 !! rc = Some probs
          <-> (cell_key rc, JList (JFloat <$> probs)) ∈ entries).
Proof.
  destruct (to_json clued_2x2) as [j|] eqn:Hj; [|vm_compute in Hj; discriminate].
  destruct (snapshot_lists_every_distribution clued_2x2 j Hj) as (entries & H).
  exists j, entries. split; [reflexivity | exact H].
Defined.

Section PeersOfACell.

(** The peers of a cell of the grid that are not clamped are the other
    cells of the grid in its row or its column that are not clamped. *)
Lemma elem_of_free_peers (s : NetworkSettling) (row col : Z) (rc : cell) :
  in_grid s (row, col) ->
  rc ∈ free_peers s row col
  <-> in_grid s rc /\ rc <> (row, col) /\ (rc.1 = row \/ rc.2 = col) /\ rc ∉ clamped s.
Proof.
  intros [Hr Hc]. simpl in *. unfold free_peers, line_peers, in_grid.
  rewrite list_elem_of_filter, elem_of_app, !list_elem_of_fmap. split.
  - intros [Hcl [(c & -> & Hin)|(r & -> & Hin)]];
      apply list_elem_of_filter in Hin as [Hne Hin]; apply elem_of_range in Hin; simpl;
      (split; [split; assumption|]); (split; [congruence|]); auto.
  - intros ([Hr' Hc'] & Hne & Hline & Hcl). split; [exact Hcl|].
    destruct rc as [r c]. simpl in *.
    destruct (decide (r = row)) as [->|Hrow].
    + left. exists c. split; [reflexivity|]. apply list_elem_of_filter.
      split; [congruence | apply elem_of_range; assumption].
    + right. destruct Hline as [E|E]; [contradiction|]. subst c. exists r. split; [reflexivity|].
      apply list_elem_of_filter. split; [assumption | apply elem_of_range; assumption].
Qed.

Lemma ltb_irrefl (x : float) : (x <? x)%float = false.
Proof.
  rewrite ltb_spec. unfold SFltb.
  destruct (Prim2SF x) as [sx|sx| |sx mx ex] eqn:E; simpl; try reflexivity;
    try (destruct sx; reflexivity).
  destruct sx; rewrite Z.compare_refl;
    change (Pos.compare_cont Eq mx mx) with (Pos.compare mx mx);
    rewrite Pos.compare_refl; reflexivity.
Qed.

Lemma max_scan_constant (u : float) (pos i k : nat) :
  Py.max_scan u pos i (replicate k u) = (u, pos).
Proof.
  revert i. induction k as [|k IH]; intros i; simpl; [reflexivity|].
  rewrite ltb_irrefl. apply IH.
Qed.

End PeersOfACell.

(** X22: a second [set_clue] on a cell replaces the first: it returns the
    engine [set_clue] with the second value alone returns, and raises
    exactly when that call raises. *)
Theorem set_clue_overwrites (s s1 : NetworkSettling) (row col value1 value2 : Z) :
  set_clue s row col value1 = Ok s1 ->
  set_clue s1 row col value2 = set_clue s row col value2.
Proof.
  intros H. apply set_clue_inv in H as (Hfits & probs & _ & ->).
  unfold set_clue. simpl. rewrite repeat_ok by exact Hfits. cbn [bind].
  destruct (Py.setitem _ _ _) as [probs2|]; simpl; [|reflexivity].
  rewrite insert_insert_eq. do 2 f_equal.
  apply set_eq. intros x. rewrite !elem_of_union. tauto.
Qed.

Lemma set_clue_overwrites_witness :
  exists s1,
    set_clue (state_of (new 4)) 1 2 3 = Ok s1
    /\ set_clue s1 1 2 4 = set_clue (state_of (new 4)) 1 2 4.
Proof.
  eexists. split; [vm_compute; reflexivity|].
  apply (set_clue_overwrites (state_of (new 4)) _ 1 2 3 4). vm_compute. reflexivity.
Defined.

(** X23: [reset] and [initialize] are idempotent: called on the engine
    they have just returned, they return it unchanged. *)
Theorem reset_and_initialize_idempotent (s s' : NetworkSettling) :
  (reset s = Ok s' -> reset s' = Ok s')
  /\ (initialize s = Ok s' -> initialize s' = Ok s').
Proof.
  assert (Hfill : forall n u d, filled n u (filled n u d) = filled n u d).
  { intros n u d. apply map_eq. intros rc.
    destruct (decide ((0 <= rc.1 < n) /\ (0 <= rc.2 < n))) as [Hin|Hout].
    - rewrite !fill_uniform_in by exact Hin. reflexivity.
    - rewrite !fill_uniform_out by exact Hout. reflexivity. }
  split; intros H.
  - unfold reset in *. apply initialize_inv in H as (Hn & u & Hu & ->). simpl in *.
    rewrite (initialize_ok _ u) by (simpl; assumption). simpl. rewrite Hfill. reflexivity.
  - apply initialize_inv in H as (Hn & u & Hu & ->).
    rewrite (initialize_ok _ u) by (simpl; assumption). simpl. rewrite Hfill. reflexivity.
Qed.

(** X24: ties go to the lowest value: for a cell whose entries are all the
    same, as in a fresh engine, [get_most_likely_value] reports the value 1
    with that entry as its probability. *)
Theorem get_most_likely_value_of_uniform (s : NetworkSettling) (row col : Z) (u : float) :
  0 < grid_size s ->
  probabilities s !! (row, col) = Some (copies u (grid_size s)) ->
  get_most_likely_value s row col = Ok (1, u).
Proof.
  intros Hn Hp. unfold get_most_likely_value, Py.subscript. rewrite Hp. cbn [bind].
  unfold copies. destruct (Z.to_nat (grid_size s)) as [|k] eqn:Hk; [lia|].
  simpl. rewrite max_scan_constant. reflexivity.
Qed.

Lemma get_most_likely_value_of_uniform_witness :
  exists u, get_most_likely_value (state_of (new 4)) 2 3 = Ok (1, u).
Proof.
  exists 0.25%float. apply (get_most_likely_value_of_uniform (state_of (new 4)) 2 3).
  - vm_compute. reflexivity.
  - vm_compute. reflexivity.
Defined.

Lemma reset_and_initialize_idempotent_witness :
  exists s1 s2,
    reset clued_2x2 = Ok s1 /\ reset s1 = Ok s1
    /\ initialize clued_2x2 = Ok s2 /\ initialize s2 = Ok s2.
Proof.
  eexists _, _. split; [vm_compute; reflexivity|].
  split; [apply (proj1 (reset_and_initialize_idempotent clued_2x2 _)); vm_compute; reflexivity|].
  split; [vm_compute; reflexivity|].
  apply (proj2 (reset_and_initialize_idempotent clued_2x2 _)). vm_compute. reflexivity.
Defined.


(** X25: [get_state] reports the counter, the flag, the size and the number
    of clamped cells.  That number counts every clamped cell once:
    [set_clue] adds one to it for a cell that was not clamped and leaves it
    for a cell that was, [remove_clue] takes one off for a clamped cell and
    leaves it otherwise, and [reset] brings it to 0. *)
Theorem get_state_counts_clues (s s' : NetworkSettling) (row col value : Z) :
  let count := Z.of_nat (size (clamped s)) in
  field_names (get_state s) = ["iteration"; "is_converged"; "grid_size"; "clamped_count"]
  /\ get_field "iteration" (get_state s) = Some (JInt (iteration s))
  /\ get_field "is_converged" (get_state s) = Some (JBool (is_converged s))
  /\ get_field "grid_size" (get_state s) = Some (JInt (grid_size s))
  /\ clamped_count s = Some (JInt count)
  /\ (set_clue s row col value = Ok s' ->
      clamped_count s' = Some (JInt (if is_clamped s row col then count else count + 1)))
  /\ (remove_clue s row col = Ok s' ->
      clamped_count s' = Some (JInt (if is_clamped s row col then count - 1 else count)))
  /\ (reset s = Ok s' -> clamped_count s' = Some (JInt 0)).
Proof.
  cbv zeta. repeat (split; [reflexivity|]). unfold clamped_count, is_clamped. simpl.
  split; [|split].
  - intros H. apply set_clue_inv in H as (_ & probs & _ & ->).
    simpl. do 2 f_equal. case_bool_decide as Hcl.
    + f_equal. f_equal. apply set_eq. intros x. rewrite elem_of_union, elem_of_singleton.
      split; [intros [->|?]; assumption | auto].
    + rewrite size_union by (apply disjoint_singleton_l; exact Hcl).
      rewrite size_singleton. lia.
  - intros H. apply remove_clue_inv in H as (_ & u & _ & ->).
    simpl. do 2 f_equal. case_bool_decide as Hcl.
    + assert (Hsub : {[(row, col)]} ⊆ clamped s) by (apply singleton_subseteq_l; exact Hcl).
      pose proof (size_union_alt {[(row, col)]} (clamped s)) as Hsize.
      rewrite (subseteq_union_1_L _ _ Hsub), size_singleton in Hsize. lia.
    + f_equal. f_equal. apply set_eq. intros x. rewrite elem_of_difference, elem_of_singleton.
      split; [tauto|]. intros Hx. split; [exact Hx | congruence].
  - intros H. unfold reset in H. apply initialize_inv in H as (_ & u & _ & ->).
    reflexivity.
Qed.

Lemma get_state_counts_clues_witness :
  exists s1 s2 s3,
    set_clue clued_2x2 1 1 2 = Ok s1 /\ clamped_count s1 = Some (JInt 2)
    /\ remove_clue clued_2x2 0 0 = Ok s2 /\ clamped_count s2 = Some (JInt 0)
    /\ reset clued_2x2 = Ok s3 /\ clamped_count s3 = Some (JInt 0).
Proof.
  eexists _, _, _.
  split; [vm_compute; reflexivity|].
  split; [apply (get_state_counts_clues clued_2x2 _ 1 1 2); vm_compute; reflexivity|].
  split; [vm_compute; reflexivity|].
  split; [apply (get_state_counts_clues clued_2x2 _ 0 0 0); vm_compute; reflexivity|].
  split; [vm_compute; reflexivity|].
  apply (get_state_counts_clues clued_2x2 _ 0 0 0). vm_compute. reflexivity.
Defined.
